(** * Alexia_teams: the .docx patch engine ([fix.py], [api/fix.py])

    A shallow embedding of the patch engine and the properties of its
    specification.

    Conventions of the embedding.
    - A Python [bytes] value is a Rocq [string] (one character per byte).
    - A Python [str] value is a Rocq [string], one character per code
      point; code points above 255 are outside the model.
    - An lxml element is a value of [etree.element]: tag (in Clark
      notation), ordered attributes, text, element children and tail.
      Comments and processing instructions are not modelled.
    - An exception is a [Raise] result; [try ... except Exception] is
      [try_except].
    - The libraries the program calls but does not contain (the lxml parser
      and serialiser, [zipfile], the UTF-8 codec) are operations of the
      classes [XmlLib], [ZipLib] and [Utf8Lib].
    - [LXML_AVAILABLE] is [True]: without lxml the name [etree] is unbound
      and every patcher fails on its first use. *)

From Stdlib Require Import ZArith Ascii String List Lia Bool.
From Stdlib Require DecimalString.
From stdpp Require Import base tactics option list strings countable.

Local Open Scope string_scope.
Local Open Scope Z_scope.

(** ** Python builtins *)

Module Py.

Inductive exn : Type :=
| BadZipFile
| XMLSyntaxError
| ValueError
| KeyError.

Inductive result (A : Type) : Type :=
| Ok (a : A)
| Raise (e : exn).
Arguments Ok {A} a.
Arguments Raise {A} e.

Definition bind {A B} (m : result A) (k : A -> result B) : result B :=
  match m with
  | Ok a => k a
  | Raise e => Raise e
  end.

(** [try: body except Exception: handler] *)
Definition try_except {A} (body : result A) (handler : A) : A :=
  match body with
  | Ok a => a
  | Raise _ => handler
  end.

(** A [for] loop that rebuilds a list, left to right; the first exception
    leaves the loop. *)
Definition mapM {A B} (f : A -> result B) : list A -> result (list B) :=
  fix go (l : list A) : result (list B) :=
    match l with
    | [] => Ok []
    | x :: l' =>
        bind (f x) (fun y => bind (go l') (fun ys => Ok (y :: ys)))
    end.

(** Truthiness of [s] in [if s and ...], for [s] a [str] or [None]. *)
Definition truthy (s : string) : bool :=
  match s with
  | EmptyString => false
  | String _ _ => true
  end.

(** [s.lstrip(c)] for a one-character argument. *)
Fixpoint lstrip (c : ascii) (s : string) : string :=
  match s with
  | String a s' => if Ascii.eqb a c then lstrip c s' else s
  | EmptyString => EmptyString
  end.

(** ['0'..'9'] *)
Definition is_decimal (a : ascii) : bool :=
  let n := nat_of_ascii a in (48 <=? n)%nat && (n <=? 57)%nat.

(** The characters below 256 on which [str.isdigit] holds: the decimal
    digits and the superscripts U+00B2, U+00B3 and U+00B9. *)
Definition is_digit_char (a : ascii) : bool :=
  let n := nat_of_ascii a in
  is_decimal a || (n =? 178)%nat || (n =? 179)%nat || (n =? 185)%nat.

Fixpoint all_chars (p : ascii -> bool) (s : string) : bool :=
  match s with
  | EmptyString => true
  | String a s' => p a && all_chars p s'
  end.

(** [s.isdigit()]: at least one character, and all of them digits. *)
Definition isdigit (s : string) : bool :=
  truthy s && all_chars is_digit_char s.

Fixpoint digits_value (acc : Z) (s : string) : Z :=
  match s with
  | EmptyString => acc
  | String a s' => digits_value (10 * acc + (Z.of_nat (nat_of_ascii a) - 48)) s'
  end.

Definition decimal_literal (s : string) : result Z :=
  if truthy s && all_chars is_decimal s
  then Ok (digits_value 0 s)
  else Raise ValueError.

(** [int(s)]: an optional sign and decimal digits; anything else is a
    [ValueError].  (Python also accepts surrounding blanks and
    underscores between digits; the callers never pass such strings,
    their guard lets through dashes followed by digits only.) *)
Definition int (s : string) : result Z :=
  match s with
  | String a s' =>
      if Ascii.eqb a "-" then bind (decimal_literal s') (fun v => Ok (- v))
      else if Ascii.eqb a "+" then decimal_literal s'
      else decimal_literal s
  | EmptyString => Raise ValueError
  end.

(** [str(n)] for an integer. *)
Definition str (n : Z) : string :=
  DecimalString.NilZero.string_of_int (Z.to_int n).

Fixpoint startswith (p s : string) : bool :=
  match p, s with
  | EmptyString, _ => true
  | String a p', String b s' => Ascii.eqb a b && startswith p' s'
  | String _ _, EmptyString => false
  end.

(** [s.replace(old, new)] for a non-empty [old]: occurrences are taken
    left to right and do not overlap; [skip] counts the characters of a
    matched occurrence still to be passed over. *)
Fixpoint replace_from (skip : nat) (old new s : string) : string :=
  match s with
  | EmptyString => EmptyString
  | String a s' =>
      match skip with
      | S k => replace_from k old new s'
      | O =>
          if startswith old s
          then new ++ replace_from (String.length old - 1) old new s'
          else String a (replace_from O old new s')
      end
  end.

Definition replace (old new s : string) : string := replace_from O old new s.

(** [old in s] *)
Fixpoint occurs (old s : string) : bool :=
  startswith old s ||
  match s with
  | EmptyString => false
  | String _ s' => occurs old s'
  end.

(** [k in d] and [d[k]] for a dict literal. *)
Fixpoint dict_get {V} (d : list (string * V)) (k : string) : option V :=
  match d with
  | [] => None
  | (k', v) :: d' => if String.eqb k' k then Some v else dict_get d' k
  end.

End Py.

Import Py.

Global Instance result_bind : MBind Py.result := fun A B k m => Py.bind m k.
Global Instance result_ret : MRet Py.result := fun A a => Ok a.

(** ** lxml elements *)

Module etree.

(** An element with its tail: removing or copying an element takes its
    tail along, as lxml does. *)
#[local] Unset Elimination Schemes.
Inductive element : Type :=
| Element (tag : string) (attrib : list (string * string))
          (text : option string) (children : list element)
          (tail : option string).
#[local] Set Elimination Schemes.

Definition tag (e : element) : string :=
  match e with Element t _ _ _ _ => t end.
Definition attrib (e : element) : list (string * string) :=
  match e with Element _ a _ _ _ => a end.
Definition text (e : element) : option string :=
  match e with Element _ _ x _ _ => x end.
Definition children (e : element) : list element :=
  match e with Element _ _ _ c _ => c end.
Definition tail (e : element) : option string :=
  match e with Element _ _ _ _ x => x end.

Definition with_children (e : element) (cs : list element) : element :=
  match e with Element t a x _ tl => Element t a x cs tl end.
Definition with_attrib (e : element) (a : list (string * string)) : element :=
  match e with Element t _ x cs tl => Element t a x cs tl end.

(** [etree.Element(t)]: no attribute, text, child or tail. *)
Definition new (t : string) : element := Element t [] None [] None.

Definition has_tag (t : string) (e : element) : bool := String.eqb (tag e) t.

(** [e.get(k)] *)
Definition get (e : element) (k : string) : option string :=
  Py.dict_get (attrib e) k.

(** [e.get(k, default)] *)
Definition get_default (e : element) (k d : string) : string :=
  default d (get e k).

Fixpoint set_attr (a : list (string * string)) (k v : string)
  : list (string * string) :=
  match a with
  | [] => [(k, v)]
  | (k', v') :: a' =>
      if String.eqb k' k then (k, v) :: a' else (k', v') :: set_attr a' k v
  end.

(** [e.set(k, v)]: an existing attribute keeps its place, a new one goes
    last. *)
Definition set (e : element) (k v : string) : element :=
  with_attrib e (set_attr (attrib e) k v).

(** [e.find(t)], on the list of children: the first child tagged [t]. *)
Fixpoint find_in (t : string) (cs : list element) : option element :=
  match cs with
  | [] => None
  | c :: cs' => if has_tag t c then Some c else find_in t cs'
  end.

Definition find (e : element) (t : string) : option element :=
  find_in t (children e).

(** [e.find('.//' + t)]: the first proper descendant tagged [t], in
    document order. *)
Fixpoint find_desc (t : string) (e : element) : option element :=
  match e with
  | Element _ _ _ cs _ =>
      (fix go (cs : list element) : option element :=
         match cs with
         | [] => None
         | c :: cs' =>
             if has_tag t c then Some c
             else match find_desc t c with
                  | Some d => Some d
                  | None => go cs'
                  end
         end) cs
  end.

(** [e.findall('.//' + t)]: the proper descendants tagged [t], in
    document order. *)
Fixpoint findall_desc (t : string) (e : element) : list element :=
  match e with
  | Element _ _ _ cs _ =>
      (fix go (cs : list element) : list element :=
         match cs with
         | [] => []
         | c :: cs' =>
             ((if has_tag t c then [c] else []) ++ findall_desc t c ++ go cs')%list
         end) cs
  end.

(** [e.remove(c)] for [c = e.find(t)]: the first child tagged [t]
    leaves the list. *)
Fixpoint remove_first (t : string) (cs : list element) : list element :=
  match cs with
  | [] => []
  | c :: cs' => if has_tag t c then cs' else c :: remove_first t cs'
  end.

(** An in-place edit of [e.find(t)]: the first child tagged [t] is
    replaced by its edited value. *)
Fixpoint alter_first (t : string) (f : element -> element)
         (cs : list element) : list element :=
  match cs with
  | [] => []
  | c :: cs' => if has_tag t c then f c :: cs' else c :: alter_first t f cs'
  end.

Fixpoint alterM_first (t : string) (f : element -> Py.result element)
         (cs : list element) : Py.result (list element) :=
  match cs with
  | [] => Ok []
  | c :: cs' =>
      if has_tag t c then c' ← f c; Ok (c' :: cs')
      else r ← alterM_first t f cs'; Ok (c :: r)
  end.

(** The number of children tagged [t]. *)
Definition count_tag (t : string) (cs : list element) : nat :=
  length (List.filter (has_tag t) cs).

(** [etree.SubElement(parent, t)]: a new element, appended. *)
Definition SubElement (parent : element) (t : string) : element :=
  with_children parent (children parent ++ [new t])%list.

(** [parent.append(c)] for a [c] that has no parent. *)
Definition append (parent c : element) : element :=
  with_children parent (children parent ++ [c])%list.

(** [c = etree.SubElement(parent, t); parent.insert(0, c)]: lxml moves
    the element it has just appended to the front. *)
Definition SubElement_first (parent : element) (t : string) : element :=
  with_children parent (new t :: children parent).

(** The in-place edit of [root.find('.//' + t)]: the first proper
    descendant tagged [t], in document order, is replaced by [d]. *)
Fixpoint replace_desc (t : string) (d : element) (e : element) : element :=
  match e with
  | Element tg a x cs tl =>
      Element tg a x
        ((fix go (cs : list element) : list element :=
            match cs with
            | [] => []
            | c :: cs' =>
                if has_tag t c then d :: cs'
                else match find_desc t c with
                     | Some _ => replace_desc t d c :: cs'
                     | None => c :: go cs'
                     end
            end) cs) tl
  end.

(** [for el in root.findall('.//' + t): f(el)], for an [f] that edits
    [el] in place.  The list is taken before the loop and the loops of
    this program never add, remove or rename an element tagged [t]; each
    step reads and writes the attributes and child lists of [el]'s own
    property elements only, or (the font loop) applies one idempotent
    attribute edit, so that the state after the loop does not depend on
    the order of the visits.  The descendants are visited here from the
    leaves up. *)
Fixpoint for_findall (t : string) (f : element -> element) (e : element)
  : element :=
  match e with
  | Element tg a x cs tl =>
      Element tg a x
        (map (fun c => let c' := for_findall t f c in
                       if has_tag t c then f c' else c') cs) tl
  end.

Fixpoint forM_findall (t : string) (f : element -> Py.result element)
         (e : element) : Py.result element :=
  match e with
  | Element tg a x cs tl =>
      cs' ← Py.mapM (fun c => c' ← forM_findall t f c;
                              if has_tag t c then f c' else Ok c') cs;
      Ok (Element tg a x cs' tl)
  end.

End etree.

Import etree.

(** ** The libraries behind the engine *)

(** lxml: [fromstring] is [etree.fromstring(b)] with the default parser,
    [fromstring_recover] is [etree.fromstring(b, XMLParser(recover=True,
    remove_blank_text=False))]; [None] stands for the exception the call
    raises (or, with recovery, for the [None] root on which the first
    [root.find] raises).  [tostring] is [etree.tostring(root,
    xml_declaration=True, encoding='UTF-8', standalone=True)]. *)
Class XmlLib : Type := {
  fromstring : string -> option element;
  fromstring_recover : string -> option element;
  tostring : element -> string
}.

(** Serialising a tree and parsing the result gives the tree back. *)
Definition xml_roundtrip (X : XmlLib) : Prop :=
  forall t : element,
    fromstring (tostring t) = Some t /\ fromstring_recover (tostring t) = Some t.

(** A container is the list of its entries, file name and content, in the
    order of [infolist()]; the other fields of [ZipInfo] travel with the
    entry and are not modelled, and every entry of a container that opens
    can be read. *)
Definition package : Type := list (string * string).

(** zipfile: [zip_open b] is [ZipFile(io.BytesIO(b), 'r')], [None] when it
    raises [BadZipFile]; [zip_getvalue z] is the content of the output
    buffer after the entries of [z] have been written and the archive
    closed. *)
Class ZipLib : Type := {
  zip_open : string -> option package;
  zip_getvalue : package -> string
}.

Definition zip_roundtrip (Z : ZipLib) : Prop :=
  forall z : package, zip_open (zip_getvalue z) = Some z.

(** The codec: [decode_utf8_replace b] is [b.decode('utf-8',
    errors='replace')] and [encode_utf8 s] is [s.encode('utf-8')]. *)
Class Utf8Lib : Type := {
  decode_utf8_replace : string -> string;
  encode_utf8 : string -> string
}.

(** [zin.namelist()] *)
Definition namelist (z : package) : list string := map fst z.

(** [zin.read(name)]: the content of the entry the name maps to, which is
    the last one of that name in the central directory. *)
Fixpoint zread (z : package) (name : string) : option string :=
  match z with
  | [] => None
  | (n, d) :: z' =>
      match zread z' name with
      | Some d' => Some d'
      | None => if String.eqb n name then Some d else None
      end
  end.

(** ** [fix.py] *)

Module Fix.

Definition W : string :=
  "http://schemas.openxmlformats.org/wordprocessingml/2006/main".
Definition WP : string :=
  "http://schemas.openxmlformats.org/drawingml/2006/wordprocessingDrawing".
(** The namespace of [a:graphic], written out in [_fix_floating_images]. *)
Definition A : string :=
  "http://schemas.openxmlformats.org/drawingml/2006/main".

Definition tag (ns local : string) : string := "{" ++ ns ++ "}" ++ local.

(** The truth values of [options.get(k)] for the five keys. *)
Record options : Type := {
  fix_spacing : bool;
  fix_margins : bool;
  fix_fonts : bool;
  fix_images : bool;
  fix_tables : bool
}.

(** [a and b], where [b] is evaluated only when [a] holds. *)
Definition and_then (a : bool) (b : Py.result bool) : Py.result bool :=
  if a then b else Ok false.

(** [val and val.lstrip('-').isdigit()] for [val = el.get(k)]. *)
Definition looks_numeric (val : option string) : bool :=
  match val with
  | Some v => Py.truthy v && Py.isdigit (Py.lstrip "-" v)
  | None => false
  end.

(** The closure [_clamp] of [_fix_paragraph_spacing]. *)
Definition _clamp (attr : string) (max_val : Z) (spacing : element)
  : Py.result element :=
  let val := get spacing (tag W attr) in
  if looks_numeric val then
    v ← Py.int (default "" val);
    if v >? max_val then Ok (set spacing (tag W attr) (Py.str max_val))
    else Ok spacing
  else Ok spacing.

Definition lineRule_in (lineRule : option string) (l : list string) : bool :=
  match lineRule with
  | Some r => existsb (String.eqb r) l
  | None => false
  end.

(** The statements of [_fix_paragraph_spacing] on the spacing element. *)
Definition fix_spacing_element (spacing : element) : Py.result element :=
  spacing ← _clamp "before" 160 spacing;
  spacing ← _clamp "after" 160 spacing;
  let line := get spacing (tag W "line") in
  let lineRule := get spacing (tag W "lineRule") in
  if looks_numeric line then
    c ← and_then (lineRule_in lineRule ["exact"; "atLeast"])
                 (v ← Py.int (default "" line); Ok (v >? 480));
    if (c : bool) then
      Ok (set (set spacing (tag W "line") "276") (tag W "lineRule") "auto")
    else
      c ← and_then (lineRule_in lineRule ["auto"])
                   (v ← Py.int (default "" line); Ok (v >? 720));
      if (c : bool) then Ok (set spacing (tag W "line") "480") else Ok spacing
  else Ok spacing.

Definition _fix_paragraph_spacing (pPr : element) : Py.result element :=
  let pPr :=
    match find pPr (tag W "spacing") with
    | Some _ => pPr
    | None => SubElement pPr (tag W "spacing")
    end in
  cs ← alterM_first (tag W "spacing") fix_spacing_element (children pPr);
  Ok (with_children pPr cs).

(** One turn of the loop of [_fix_indentation]. *)
Definition fix_indent_attr (ind : element) (attr : string)
  : Py.result element :=
  let val := get ind (tag W attr) in
  if looks_numeric val then
    v ← Py.int (default "" val);
    if Z.abs v >? 2880 then Ok (set ind (tag W attr) "0") else Ok ind
  else Ok ind.

(** The loop of [_fix_indentation], over [('left', 'right', 'hanging')]. *)
Definition fix_ind_element (ind : element) : Py.result element :=
  ind ← fix_indent_attr ind "left";
  ind ← fix_indent_attr ind "right";
  fix_indent_attr ind "hanging".

Definition _fix_indentation (pPr : element) : Py.result element :=
  cs ← alterM_first (tag W "ind") fix_ind_element (children pPr);
  Ok (with_children pPr cs).

Definition UNSAFE : list (string * string) :=
  [ ("Calibri Light", "Calibri");
    ("Cambria Math", "Cambria");
    ("Symbol", "Arial");
    ("Wingdings", "Arial");
    ("Wingdings 2", "Arial");
    ("Wingdings 3", "Arial");
    ("Webdings", "Arial") ].

(** The inner loop of [_fix_run_fonts], over [list(rFonts.attrib)]. *)
Definition fix_rFonts (rFonts : element) : element :=
  fold_left
    (fun rFonts attr =>
       match get rFonts attr with
       | Some val =>
           match Py.dict_get UNSAFE val with
           | Some safe => set rFonts attr safe
           | None => rFonts
           end
       | None => rFonts
       end)
    (map fst (attrib rFonts)) rFonts.

Definition _fix_run_fonts (para : element) : element :=
  for_findall (tag W "rPr")
    (fun rPr =>
       with_children rPr (alter_first (tag W "rFonts") fix_rFonts (children rPr)))
    para.

(** The replacement [wp:inline] that [_fix_floating_images] builds from
    an anchor and its graphic. *)
Definition make_inline (anchor graphic : element) : element :=
  let extent := find anchor (tag WP "extent") in
  let cx := match extent with
            | Some ex => get_default ex "cx" "3000000"
            | None => "3000000"
            end in
  let cy := match extent with
            | Some ex => get_default ex "cy" "2000000"
            | None => "2000000"
            end in
  let inline := new (tag WP "inline") in
  let inline := set (set inline "distT" "0") "distB" "0" in
  let inline := set (set inline "distL" "114240") "distR" "114240" in
  let ext_el := set (set (new (tag WP "extent")) "cx" cx) "cy" cy in
  let inline := append inline ext_el in
  let effExtent :=
    fold_left (fun el side => set el side "0") ["l"; "t"; "r"; "b"]
              (new (tag WP "effectExtent")) in
  let inline := append inline effExtent in
  let inline := match find anchor (tag WP "docPr") with
                | Some docPr => append inline docPr
                | None => inline
                end in
  append inline graphic.

(** The tests of one turn of the loop of [_fix_floating_images] on the
    children of a drawing: the anchor and its graphic, or [None] when
    the turn ends in [continue]. *)
Definition anchor_and_graphic (cs : list element)
  : option (element * element) :=
  match find_in (tag WP "anchor") cs with
  | None => None
  | Some anchor =>
      match find_desc (tag A "graphic") anchor with
      | None => None
      | Some graphic => Some (anchor, graphic)
      end
  end.

(** The loop of [_fix_floating_images] as it acts on an element of the
    list and on what lies below it.  The drawings are visited in
    document order, a drawing before the drawings inside it: the inline
    receives copies of the identity block and of the graphic as they
    are at that moment, the anchor leaves the tree with everything
    below it, and the later turns on drawings below the anchor change
    the detached anchor only.  The children that stay are visited after
    their parent; the new inline is not in the list. *)
Fixpoint fix_images_below (e : element) : element :=
  match e with
  | Element tg a x cs tl =>
      let cs' := map fix_images_below cs in
      if String.eqb tg (tag W "drawing") then
        match anchor_and_graphic cs with
        | Some (anchor, graphic) =>
            Element tg a x
              (remove_first (tag WP "anchor") cs'
                 ++ [make_inline anchor graphic])%list tl
        | None => Element tg a x cs' tl
        end
      else Element tg a x cs' tl
  end.

Definition _fix_floating_images (body : element) : element :=
  with_children body (map fix_images_below (children body)).

(** The [w:tblCellMar] that [_fix_tables] builds. *)
Definition default_tblCellMar : element :=
  fold_left
    (fun tblCellMar side =>
       append tblCellMar
         (set (set (new (tag W side)) (tag W "w") "80") (tag W "type") "dxa"))
    ["top"; "left"; "bottom"; "right"]
    (new (tag W "tblCellMar")).

(** One turn of the loop of [_fix_tables]. *)
Definition fix_tbl (tbl : element) : element :=
  let tbl :=
    match find tbl (tag W "tblPr") with
    | Some _ => tbl
    | None => SubElement_first tbl (tag W "tblPr")
    end in
  with_children tbl
    (alter_first (tag W "tblPr")
       (fun tblPr =>
          match find tblPr (tag W "tblCellMar") with
          | Some _ => tblPr
          | None => append tblPr default_tblCellMar
          end)
       (children tbl)).

Definition _fix_tables (body : element) : element :=
  for_findall (tag W "tbl") fix_tbl body.

(** [pPr = para.find(tag(W,'pPr'))], and the two statements that create
    the element when there is none. *)
Definition ensure_pPr (para : element) : element :=
  match find para (tag W "pPr") with
  | Some _ => para
  | None => SubElement_first para (tag W "pPr")
  end.

(** One turn of the loop of [_patch_document] over the paragraphs. *)
Definition patch_paragraph (o : options) (para : element)
  : Py.result element :=
  let para := ensure_pPr para in
  cs ← alterM_first (tag W "pPr")
         (fun pPr =>
            pPr ← (if fix_spacing o then _fix_paragraph_spacing pPr else Ok pPr);
            if fix_margins o then _fix_indentation pPr else Ok pPr)
         (children para);
  let para := with_children para cs in
  Ok (if fix_fonts o then _fix_run_fonts para else para).

(** [_patch_document] between parsing and serialising: what happens to
    the body. *)
Definition patch_body (o : options) (body : element) : Py.result element :=
  body ← forM_findall (tag W "p") (patch_paragraph o) body;
  let body := if fix_images o then _fix_floating_images body else body in
  let body := if fix_tables o then _fix_tables body else body in
  Ok body.

(** The flags [_patch_settings] removes. *)
Definition bad_flags : list string :=
  [ "useWord2002TableStyleRules"; "useWord97LineBreakRules";
    "useWord2003FootnoteLineBreakRules" ].

(** [for bad in names: el = compat.find(tag(W, bad)); if el is not None:
    compat.remove(el)] *)
Definition strip_flags (names : list string) (compat : element) : element :=
  fold_left
    (fun compat bad =>
       with_children compat (remove_first (tag W bad) (children compat)))
    names compat.

(** [_patch_settings] between parsing and serialising. *)
Definition patch_settings_root (root : element) : element :=
  with_children root
    (alter_first (tag W "compat") (strip_flags bad_flags) (children root)).

Definition replacements : list (string * string) :=
  [ ("Calibri Light", "Calibri");
    ("Cambria Math", "Cambria") ].

(** [for old, new in replacements.items(): xml_str = xml_str.replace(old, new)] *)
Definition replace_all (table : list (string * string)) (xml_str : string)
  : string :=
  fold_left (fun s on => Py.replace (fst on) (snd on) s) table xml_str.

Section engine.
Context {X : XmlLib} {Z : ZipLib} {U : Utf8Lib}.

Definition _patch_document (xml_bytes : string) (o : options)
  : Py.result string :=
  match fromstring_recover xml_bytes with
  | None => Raise XMLSyntaxError
  | Some root =>
      match find_desc (tag W "body") root with
      | None => Ok xml_bytes
      | Some body =>
          body ← patch_body o body;
          Ok (tostring (replace_desc (tag W "body") body root))
      end
  end.

(** The [try] block of [_patch_settings]. *)
Definition _patch_settings_try (xml_bytes : string) : Py.result string :=
  match fromstring xml_bytes with
  | None => Raise XMLSyntaxError
  | Some root => Ok (tostring (patch_settings_root root))
  end.

Definition _patch_settings (xml_bytes : string) : string :=
  Py.try_except (_patch_settings_try xml_bytes) xml_bytes.

(** The [try] block of [_patch_styles]. *)
Definition _patch_styles_try (xml_bytes : string) : Py.result string :=
  let xml_str := decode_utf8_replace xml_bytes in
  let xml_str := replace_all replacements xml_str in
  Ok (encode_utf8 xml_str).

Definition _patch_styles (xml_bytes : string) : string :=
  Py.try_except (_patch_styles_try xml_bytes) xml_bytes.

(** One turn of the loop of [fix_docx]: the entry written for [item]. *)
Definition fix_entry (zin : package) (o : options) (item : string * string)
  : Py.result (string * string) :=
  let filename := fst item in
  match zread zin filename with
  | None => Raise KeyError
  | Some data =>
      data ←
        (if String.eqb filename "word/document.xml" then
           _patch_document data o
         else if String.eqb filename "word/settings.xml" then
           Ok (_patch_settings data)
         else if String.eqb filename "word/styles.xml" && fix_fonts o then
           Ok (_patch_styles data)
         else Ok data);
      Ok (filename, data)
  end.

(** The loop of [fix_docx] over [zin.infolist()]. *)
Definition fix_entries (zin : package) (o : options) : Py.result package :=
  Py.mapM (fix_entry zin o) zin.

Definition fix_docx (input_bytes : string) (o : options)
  : Py.result string :=
  match zip_open input_bytes with
  | None => Raise BadZipFile
  | Some zin =>
      zout ← fix_entries zin o;
      Ok (zip_getvalue zout)
  end.

End engine.

End Fix.

(** ** [api/fix.py]

    [fix_for_teams] opens and saves the package with python-docx; of its
    three passes the one over the compatibility flags is embedded, on the
    root of the settings part, and [is_valid_docx], which the handler
    calls before it. *)

Module Api.

Section api.
Context {Z : ZipLib}.

(** [data[:4] != b'PK\x03\x04'] *)
Definition zip_signature : string :=
  String "P" (String "K" (String "003" (String "004" EmptyString))).

Definition is_valid_docx (data : string) : bool :=
  if (String.length data <? 4)%nat then false
  else if negb (String.eqb (substring 0 4 data) zip_signature) then false
  else match zip_open data with
       | Some z => existsb (String.eqb "word/document.xml") (namelist z)
       | None => false
       end.
End api.

(** The flags the third pass of [fix_for_teams] removes. *)
Definition bad_flags : list string :=
  [ "useWord2002TableStyleRules"; "useWord97LineBreakRules"; "growAutofit" ].

(** The third pass of [fix_for_teams], on the root of the settings
    part ([qn('w:' + bad)] is the tag in Clark notation). *)
Definition fix_for_teams_compat (settings : element) : element :=
  with_children settings
    (alter_first (Fix.tag Fix.W "compat") (Fix.strip_flags bad_flags)
       (children settings)).

End Api.

(** ** A plain instance of the libraries

    Trees and containers are numbered (they are countable) and the number
    is written in binary: enough to meet [xml_roundtrip] and
    [zip_roundtrip], and so to show that the theorems that assume them
    are not empty.  The codec is the identity, which is UTF-8 on ASCII
    text. *)

Module Plain.

Fixpoint binary (p : positive) : string :=
  match p with
  | xH => EmptyString
  | xO p' => String "0" (binary p')
  | xI p' => String "1" (binary p')
  end.

Fixpoint of_binary (s : string) : positive :=
  match s with
  | EmptyString => xH
  | String "0" s' => xO (of_binary s')
  | String _ s' => xI (of_binary s')
  end.

Global Instance element_eq_dec : EqDecision element.
Proof.
  refine (
    fix go (e1 e2 : element) : Decision (e1 = e2) :=
      let _ : EqDecision element := @go in
      match e1, e2 with
      | Element t1 a1 x1 cs1 tl1, Element t2 a2 x2 cs2 tl2 =>
          cast_if_and5 (decide (t1 = t2)) (decide (a1 = a2))
                       (decide (x1 = x2)) (decide (cs1 = cs2))
                       (decide (tl1 = tl2))
      end); congruence.
Defined.

Definition leaf : Type :=
  string * list (string * string) * option string * option string.

Fixpoint to_tree (e : element) : gen_tree leaf :=
  match e with
  | Element t a x cs tl => GenNode 0 (GenLeaf (t, a, x, tl) :: map to_tree cs)
  end.

Fixpoint of_tree (g : gen_tree leaf) : element :=
  match g with
  | GenNode _ (GenLeaf (t, a, x, tl) :: gs) => Element t a x (map of_tree gs) tl
  | _ => new EmptyString
  end.

Lemma of_to_tree (e : element) : of_tree (to_tree e) = e.
Proof.
  revert e. fix IH 1. intros [t a x cs tl]. simpl. f_equal.
  induction cs as [|c cs IHcs]; simpl; [reflexivity|].
  rewrite IH, IHcs. reflexivity.
Qed.

Global Instance element_countable : Countable element :=
  inj_countable' to_tree of_tree of_to_tree.

Definition xml : XmlLib := {|
  fromstring b := countable.decode (of_binary b);
  fromstring_recover b := countable.decode (of_binary b);
  tostring t := binary (countable.encode t)
|}.

Definition zip : ZipLib := {|
  zip_open b := countable.decode (of_binary b);
  zip_getvalue z := binary (countable.encode z)
|}.

Definition utf8 : Utf8Lib := {|
  decode_utf8_replace b := b;
  encode_utf8 s := s
|}.

End Plain.

(** ** Sample documents *)

Module Sample.

Definition all_on : Fix.options :=
  {| Fix.fix_spacing := true; Fix.fix_margins := true; Fix.fix_fonts := true;
     Fix.fix_images := true; Fix.fix_tables := true |}.

Definition all_off : Fix.options :=
  {| Fix.fix_spacing := false; Fix.fix_margins := false; Fix.fix_fonts := false;
     Fix.fix_images := false; Fix.fix_tables := false |}.

Definition leaf (t : string) (a : list (string * string)) : element :=
  Element t a None [] None.

Definition node (t : string) (cs : list element) : element :=
  Element t [] None cs None.

(** [<w:document><w:body> content </w:body></w:document>] *)
Definition document (content : list element) : element :=
  node (Fix.tag Fix.W "document") [node (Fix.tag Fix.W "body") content].

Definition graphic (uri : string) : element :=
  node (Fix.tag Fix.A "graphic")
    [leaf (Fix.tag Fix.A "graphicData") [("uri", uri)]].

Definition anchor (cx cy id : string) : element :=
  Element (Fix.tag Fix.WP "anchor") [("behindDoc", "0")] None
    [ leaf (Fix.tag Fix.WP "extent") [("cx", cx); ("cy", cy)];
      leaf (Fix.tag Fix.WP "docPr") [("id", id)];
      graphic id ] None.

(** A run of text. *)
Definition run (t : string) : element :=
  node (Fix.tag Fix.W "r") [Element (Fix.tag Fix.W "t") [] (Some t) [] None].

(** One paragraph without properties. *)
Definition plain_doc : element :=
  document [node (Fix.tag Fix.W "p") [run "Hello"]].

(** A paragraph whose run holds a drawing with two floating anchors. *)
Definition two_anchors : element :=
  node (Fix.tag Fix.W "drawing")
    [anchor "500000" "400000" "1"; anchor "600000" "300000" "2"].

Definition two_anchor_doc : element :=
  document
    [node (Fix.tag Fix.W "p")
       [node (Fix.tag Fix.W "pPr") [leaf (Fix.tag Fix.W "spacing") []];
        node (Fix.tag Fix.W "r") [two_anchors]]].

(** Paragraph properties whose spacing has the given attributes. *)
Definition pPr_spacing (a : list (string * string)) : element :=
  node (Fix.tag Fix.W "pPr") [leaf (Fix.tag Fix.W "spacing") a].

(** A paragraph whose space before is written with two dashes. *)
Definition two_dash_doc : element :=
  document
    [node (Fix.tag Fix.W "p")
       [pPr_spacing [(Fix.tag Fix.W "before", "--200")]; run "Hello"]].

(** A table whose properties hold a width and no cell margins. *)
Definition table_with_width : element :=
  node (Fix.tag Fix.W "tbl")
    [ node (Fix.tag Fix.W "tblPr")
        [leaf (Fix.tag Fix.W "tblW") [(Fix.tag Fix.W "w", "5000")]];
      node (Fix.tag Fix.W "tr") [] ].

(** A settings part with three compatibility flags and one setting. *)
Definition settings : element :=
  node (Fix.tag Fix.W "settings")
    [ leaf (Fix.tag Fix.W "zoom") [(Fix.tag Fix.W "percent", "100")];
      node (Fix.tag Fix.W "compat")
        [ leaf (Fix.tag Fix.W "useWord97LineBreakRules") [];
          leaf (Fix.tag Fix.W "growAutofit") [];
          leaf (Fix.tag Fix.W "useWord2003FootnoteLineBreakRules") [];
          leaf (Fix.tag Fix.W "compatSetting") [(Fix.tag Fix.W "name", "compatibilityMode")] ] ].

Section packages.
Context {X : XmlLib} {Z : ZipLib}.

Definition plain_package : package :=
  [ ("[Content_Types].xml", "<Types/>");
    ("word/document.xml", tostring plain_doc);
    ("word/media/image1.png", "PNG") ].

Definition two_anchor_package : package :=
  [ ("word/document.xml", tostring two_anchor_doc) ].

End packages.

End Sample.

(** [stripped names c c']: [c'] is [c] without one child of each name of
    [names] that [c] has; nothing else differs, and the children of other
    names are the same ones in the same order. *)
Definition listed (names : list string) (c : element) : bool :=
  existsb (fun bad => has_tag (Fix.tag Fix.W bad) c) names.

Definition stripped (names : list string) (c c' : element) : Prop :=
  etree.tag c' = etree.tag c /\ attrib c' = attrib c /\
  text c' = text c /\ tail c' = tail c /\
  (forall bad, bad ∈ names ->
     count_tag (Fix.tag Fix.W bad) (children c')
     = Nat.pred (count_tag (Fix.tag Fix.W bad) (children c))) /\
  List.filter (fun x => negb (listed names x)) (children c')
  = List.filter (fun x => negb (listed names x)) (children c).

(** The integer an attribute value stands for in the fixers: the value
    passes the guard and [int] reads it. *)
Definition numeric_value (val : option string) : option Z :=
  if Fix.looks_numeric val then
    match Py.int (default "" val) with
    | Ok v => Some v
    | Raise _ => None
    end
  else None.

(** A value clamped to a ceiling: replaced when it stands for an integer
    above the ceiling, kept otherwise. *)
Definition clamped (max_val : Z) (val : option string) : option string :=
  match numeric_value val with
  | Some v => if v >? max_val then Some (Py.str max_val) else val
  | None => val
  end.

(** A value zeroed when it stands for an integer of magnitude above a
    bound. *)
Definition zeroed (bound : Z) (val : option string) : option string :=
  match numeric_value val with
  | Some v => if Z.abs v >? bound then Some "0" else val
  | None => val
  end.

(** The guard and [int] agree on a value: when the guard lets it through,
    [int] reads it. *)
Definition well_read (val : option string) : Prop :=
  Fix.looks_numeric val = true -> exists v, Py.int (default "" val) = Ok v.

(** An integer literal: decimal digits after at most one dash. *)
Definition int_literal (s : string) : bool :=
  match s with
  | String a s' =>
      if Ascii.eqb a "-" then Py.truthy s' && Py.all_chars Py.is_decimal s'
      else Py.all_chars Py.is_decimal s
  | EmptyString => false
  end.

(** The parts [fix_docx] hands to a patcher. *)
Definition patched_parts : list string :=
  [ "word/document.xml"; "word/settings.xml"; "word/styles.xml" ].

(** * Properties *)

(** ** Elements and loops *)

Lemma element_ind (P : element -> Prop) :
  (forall t a x cs tl, Forall P cs -> P (Element t a x cs tl)) ->
  forall e, P e.
Proof.
  intros step. fix IH 1. intros [t a x cs tl]. apply step.
  induction cs as [|c cs IHcs]; constructor; [apply IH | exact IHcs].
Qed.

Lemma bind_Ok {A B} (m : Py.result A) (k : A -> Py.result B) (b : B) :
  (x ← m; k x) = Ok b -> exists a, m = Ok a /\ k a = Ok b.
Proof. destruct m as [a|e]; simpl; [eauto | discriminate]. Qed.

Lemma mapM_Ok {A B} (f : A -> Py.result B) (l : list A) (l' : list B) :
  Py.mapM f l = Ok l' -> Forall2 (fun x y => f x = Ok y) l l'.
Proof.
  revert l'. induction l as [|x l IH]; simpl; intros l' E.
  - injection E as <-. constructor.
  - destruct (f x) as [y|] eqn:Ey; simpl in E; [|discriminate].
    destruct (Py.mapM f l) as [ys|] eqn:Eys; simpl in E; [|discriminate].
    injection E as <-. constructor; auto.
Qed.

Lemma mapM_pure {A B} (f : A -> Py.result B) (g : A -> B) (l : list A) :
  Forall (fun x => f x = Ok (g x)) l -> Py.mapM f l = Ok (map g l).
Proof.
  induction 1 as [|x l Hx _ IH]; simpl; [reflexivity|].
  rewrite Hx. simpl. rewrite IH. reflexivity.
Qed.

(** ** The plain instance meets the round-trip assumptions *)

Lemma of_binary_binary (p : positive) : Plain.of_binary (Plain.binary p) = p.
Proof. induction p; simpl; congruence. Qed.

Lemma plain_xml_roundtrip : xml_roundtrip Plain.xml.
Proof.
  intros t. simpl. rewrite of_binary_binary, decode_encode. split; reflexivity.
Qed.

Lemma plain_zip_roundtrip : zip_roundtrip Plain.zip.
Proof. intros z. simpl. rewrite of_binary_binary. apply decode_encode. Qed.

(** ** The archive loop *)

Lemma zread_not_in (z : package) (name : string) :
  name ∉ namelist z -> zread z name = None.
Proof.
  induction z as [|[n d] z IH]; simpl; [reflexivity|].
  intros Hn. rewrite not_elem_of_cons in Hn. destruct Hn as [Hne Hn].
  rewrite (IH Hn). destruct (String.eqb_spec n name); congruence.
Qed.

Lemma zread_NoDup (z : package) (n d : string) :
  NoDup (namelist z) -> (n, d) ∈ z -> zread z n = Some d.
Proof.
  induction z as [|[n0 d0] z IH]; simpl; intros Hnd Hin.
  - inversion Hin.
  - apply list.NoDup_cons in Hnd as [Hfresh Hnd].
    apply elem_of_cons in Hin as [Heq|Hin].
    + injection Heq as -> ->.
      rewrite (zread_not_in _ _ Hfresh), String.eqb_refl. reflexivity.
    + rewrite (IH Hnd Hin). reflexivity.
Qed.

Section archive.
Context {X : XmlLib} {Z : ZipLib} {U : Utf8Lib}.

Lemma fix_entry_Ok (zin : package) (o : Fix.options) (item out : string * string) :
  Fix.fix_entry zin o item = Ok out ->
  fst out = fst item /\
  (fst item ∉ patched_parts -> zread zin (fst item) = Some (snd out)).
Proof.
  unfold Fix.fix_entry. destruct (zread zin (fst item)) as [data|]; [|discriminate].
  intros E. apply bind_Ok in E as (data' & Edata & E). injection E as <-.
  split; [reflexivity|]. simpl. intros Hout. unfold patched_parts in Hout.
  rewrite !not_elem_of_cons in Hout. destruct Hout as (H1 & H2 & H3 & _).
  apply String.eqb_neq in H1, H2, H3. rewrite H1, H2, H3 in Edata. simpl in Edata.
  congruence.
Qed.

Lemma zread_frame (D : string -> option string) (name : string)
      (l l' : package) :
  Forall2 (fun i out => fst out = fst i /\
                        (fst i = name -> D name = Some (snd out))) l l' ->
  (zread l name = None /\ zread l' name = None) \/
  (exists d d', zread l name = Some d /\ D name = Some d' /\
                zread l' name = Some d').
Proof.
  induction 1 as [|[n d] [n' d'] l l' [Hn HD] _ IH]; simpl; [auto|].
  simpl in Hn, HD. subst n'.
  destruct IH as [[-> ->]|(d1 & d1' & -> & HD1 & ->)]; [|right; eauto].
  destruct (String.eqb_spec n name) as [->|]; [right|left; auto].
  eexists _, _. eauto.
Qed.

Lemma fix_entries_positions (zin l l' : package) :
  NoDup (namelist zin) ->
  Forall (fun i => i ∈ zin) l ->
  Forall2 (fun i out =>
             fst out = fst i /\
             (fst i ∉ patched_parts -> zread zin (fst i) = Some (snd out))) l l' ->
  Forall2 (fun i out => fst out = fst i /\
                        (fst i ∉ patched_parts -> snd out = snd i)) l l'.
Proof.
  intros Hnd Hin Hall. induction Hall as [|i out l0 l' [Hn HD] _ IH]; [constructor|].
  apply list.Forall_cons in Hin as [Hi Hin]. constructor; [|auto].
  split; [exact Hn|]. intros Hout. specialize (HD Hout).
  destruct i as [n d]. simpl in *.
  rewrite (zread_NoDup _ _ _ Hnd Hi) in HD. congruence.
Qed.

Lemma fix_entries_frame (zin zout : package) (o : Fix.options) :
  Fix.fix_entries zin o = Ok zout ->
  namelist zout = namelist zin /\
  (forall name, name ∉ patched_parts -> zread zout name = zread zin name) /\
  (NoDup (namelist zin) ->
   Forall2 (fun i out => fst out = fst i /\
                         (fst i ∉ patched_parts -> snd out = snd i)) zin zout).
Proof.
  intros E. apply mapM_Ok in E.
  assert (Hall : Forall2 (fun i out =>
            fst out = fst i /\
            (fst i ∉ patched_parts -> zread zin (fst i) = Some (snd out)))
            zin zout).
  { eapply list.Forall2_impl; [exact E|]. intros i out. apply fix_entry_Ok. }
  clear E. split; [|split].
  - unfold namelist. induction Hall as [|i out l l' [Hn _] _ IH]; simpl; congruence.
  - intros name Hname.
    destruct (zread_frame (zread zin) name zin zout) as [[E1 E2]|(d & d' & E1 & E2 & E3)].
    + eapply list.Forall2_impl; [exact Hall|]. intros i out [Hn HD]. split; [exact Hn|].
      intros <-. auto.
    + congruence.
    + congruence.
  - intros Hnd. apply (fix_entries_positions zin zin zout Hnd); [|exact Hall].
    apply list.Forall_forall. auto.
Qed.
End archive.

(** ** The document part, once parsed *)

Section parsed.
Context {X : XmlLib}.

Lemma patch_document_parsed (xml_bytes : string) (root : element) (o : Fix.options) :
  fromstring_recover xml_bytes = Some root ->
  Fix._patch_document xml_bytes o =
  match find_desc (Fix.tag Fix.W "body") root with
  | None => Ok xml_bytes
  | Some body =>
      body ← Fix.patch_body o body;
      Ok (tostring (replace_desc (Fix.tag Fix.W "body") body root))
  end.
Proof. intros E. unfold Fix._patch_document. rewrite E. reflexivity. Qed.

End parsed.

Section samples.
Context {X : XmlLib} {Z : ZipLib} {U : Utf8Lib}.

Lemma fix_docx_plain_package :
  xml_roundtrip X -> zip_roundtrip Z ->
  exists doc' : element,
    Fix.fix_docx (zip_getvalue Sample.plain_package) Sample.all_on =
    Ok (zip_getvalue [ ("[Content_Types].xml", "<Types/>");
                       ("word/document.xml", tostring doc');
                       ("word/media/image1.png", "PNG") ]).
Proof.
  intros HX HZ. eexists. unfold Fix.fix_docx. rewrite HZ.
  unfold Fix.fix_entries, Sample.plain_package. cbn [Py.mapM].
  unfold Fix.fix_entry. cbn.
  rewrite (patch_document_parsed _ Sample.plain_doc) by apply HX.
  vm_compute. reflexivity.
Qed.

End samples.

(** ** C1 *)

(** C1.  Whenever [fix_docx] returns, the container it returns can be read
    back, lists exactly the entry names of the input, in the same order
    and as many times, and reads the same content under every name that
    is not [word/document.xml], [word/settings.xml] or [word/styles.xml];
    when the names of the input are distinct, each such entry holds, at
    its position, the bytes it held in the input. *)
Theorem fix_docx_preserves_entries {X : XmlLib} {Z : ZipLib} {U : Utf8Lib}
        (input output : string) (o : Fix.options) :
  zip_roundtrip Z ->
  Fix.fix_docx input o = Ok output ->
  exists zin zout : package,
    zip_open input = Some zin /\ zip_open output = Some zout /\
    namelist zout = namelist zin /\
    (forall name, name ∉ patched_parts -> zread zout name = zread zin name) /\
    (NoDup (namelist zin) ->
     Forall2 (fun i out => fst out = fst i /\
                           (fst i ∉ patched_parts -> snd out = snd i)) zin zout).
Proof.
  intros HZ E. unfold Fix.fix_docx in E.
  destruct (zip_open input) as [zin|] eqn:Ein; [|discriminate].
  apply bind_Ok in E as (zout & Eout & E). injection E as <-.
  exists zin, zout. rewrite HZ. split; [reflexivity|]. split; [reflexivity|].
  apply (fix_entries_frame _ _ _ Eout).
Qed.

(** C1 on a container with a content-types part, a document part and an
    image, patched with every option on. *)
Lemma fix_docx_preserves_entries_witness :
  zip_roundtrip Plain.zip /\
  exists output : string,
    @Fix.fix_docx Plain.xml Plain.zip Plain.utf8
      (@zip_getvalue Plain.zip (@Sample.plain_package Plain.xml)) Sample.all_on
    = Ok output /\
    exists zin zout : package,
      @zip_open Plain.zip (@zip_getvalue Plain.zip (@Sample.plain_package Plain.xml))
      = Some zin /\
      @zip_open Plain.zip output = Some zout /\
      namelist zout = namelist zin /\
      (forall name, name ∉ patched_parts -> zread zout name = zread zin name) /\
      (NoDup (namelist zin) ->
       Forall2 (fun i out => fst out = fst i /\
                             (fst i ∉ patched_parts -> snd out = snd i)) zin zout).
Proof.
  split; [exact plain_zip_roundtrip|].
  destruct (@fix_docx_plain_package Plain.xml Plain.zip Plain.utf8
              plain_xml_roundtrip plain_zip_roundtrip) as [doc' E].
  eexists. split; [exact E|].
  exact (@fix_docx_preserves_entries Plain.xml Plain.zip Plain.utf8 _ _ _
           plain_zip_roundtrip E).
Defined.

(** ** C2 *)

Section twice.
Context {X : XmlLib} {Z : ZipLib} {U : Utf8Lib}.

Lemma tostring_inj (t1 t2 : element) :
  xml_roundtrip X -> tostring t1 = tostring t2 -> t1 = t2.
Proof.
  intros HX E. pose proof (proj1 (HX t1)) as E1. rewrite E in E1.
  rewrite (proj1 (HX t2)) in E1. congruence.
Qed.

Lemma zip_getvalue_inj (z1 z2 : package) :
  zip_roundtrip Z -> zip_getvalue z1 = zip_getvalue z2 -> z1 = z2.
Proof.
  intros HZ E. pose proof (HZ z1) as E1. rewrite E, HZ in E1. congruence.
Qed.

Lemma fix_docx_document_only (root : element) (o : Fix.options) :
  xml_roundtrip X -> zip_roundtrip Z ->
  Fix.fix_docx (zip_getvalue [("word/document.xml", tostring root)]) o =
  data ← Fix._patch_document (tostring root) o;
  Ok (zip_getvalue [("word/document.xml", data)]).
Proof.
  intros HX HZ. unfold Fix.fix_docx. rewrite HZ.
  unfold Fix.fix_entries, Fix.fix_entry. cbn.
  destruct (Fix._patch_document (tostring root) o); reflexivity.
Qed.

End twice.

(** C2.  The engine is not idempotent.  On a document whose drawing holds
    two floating anchors, each with a graphic, the first run converts the
    first anchor only ([drawing.find] returns one anchor) and leaves one
    anchor in the part; a second run on that output converts the other
    anchor, so that its output has no anchor left and differs from the
    output of the first run.  The parser and the container reader are only
    assumed to read back what the serialiser and the writer produce. *)
Theorem fix_docx_twice_differs {X : XmlLib} {Z : ZipLib} {U : Utf8Lib} :
  xml_roundtrip X -> zip_roundtrip Z ->
  exists (once twice : string) (doc1 doc2 : element),
    Fix.fix_docx (zip_getvalue Sample.two_anchor_package) Sample.all_on = Ok once /\
    Fix.fix_docx once Sample.all_on = Ok twice /\
    once = zip_getvalue [("word/document.xml", tostring doc1)] /\
    twice = zip_getvalue [("word/document.xml", tostring doc2)] /\
    length (findall_desc (Fix.tag Fix.WP "anchor") doc1) = 1%nat /\
    length (findall_desc (Fix.tag Fix.WP "anchor") doc2) = 0%nat /\
    once <> twice.
Proof.
  intros HX HZ.
  assert (E1 : exists doc1,
    Fix._patch_document (tostring Sample.two_anchor_doc) Sample.all_on
    = Ok (tostring doc1) /\
    length (findall_desc (Fix.tag Fix.WP "anchor") doc1) = 1%nat /\
    exists doc2,
      Fix._patch_document (tostring doc1) Sample.all_on = Ok (tostring doc2) /\
      length (findall_desc (Fix.tag Fix.WP "anchor") doc2) = 0%nat).
  { eexists. split; [|split].
    - rewrite (patch_document_parsed _ Sample.two_anchor_doc) by apply HX.
      vm_compute. reflexivity.
    - vm_compute. reflexivity.
    - eexists. split.
      + rewrite (patch_document_parsed _ _ _ (proj2 (HX _))).
        vm_compute. reflexivity.
      + vm_compute. reflexivity. }
  destruct E1 as (doc1 & E1 & N1 & doc2 & E2 & N2).
  exists (zip_getvalue [("word/document.xml", tostring doc1)]),
         (zip_getvalue [("word/document.xml", tostring doc2)]), doc1, doc2.
  split; [|split; [|repeat split; try assumption]].
  - unfold Sample.two_anchor_package.
    rewrite (fix_docx_document_only _ _ HX HZ), E1. reflexivity.
  - rewrite (fix_docx_document_only _ _ HX HZ), E2. reflexivity.
  - intros E. apply (zip_getvalue_inj _ _ HZ) in E.
    assert (Et : tostring doc1 = tostring doc2) by congruence.
    apply (tostring_inj _ _ HX) in Et. subst doc2. congruence.
Qed.

(** C2 with the plain libraries, which meet both assumptions. *)
Lemma fix_docx_twice_differs_witness :
  xml_roundtrip Plain.xml /\ zip_roundtrip Plain.zip /\
  exists (once twice : string) (doc1 doc2 : element),
    @Fix.fix_docx Plain.xml Plain.zip Plain.utf8
      (@zip_getvalue Plain.zip (@Sample.two_anchor_package Plain.xml))
      Sample.all_on = Ok once /\
    @Fix.fix_docx Plain.xml Plain.zip Plain.utf8 once Sample.all_on = Ok twice /\
    once = @zip_getvalue Plain.zip [("word/document.xml", @tostring Plain.xml doc1)] /\
    twice = @zip_getvalue Plain.zip [("word/document.xml", @tostring Plain.xml doc2)] /\
    length (findall_desc (Fix.tag Fix.WP "anchor") doc1) = 1%nat /\
    length (findall_desc (Fix.tag Fix.WP "anchor") doc2) = 0%nat /\
    once <> twice.
Proof.
  split; [exact plain_xml_roundtrip|]. split; [exact plain_zip_roundtrip|].
  exact (@fix_docx_twice_differs Plain.xml Plain.zip Plain.utf8
           plain_xml_roundtrip plain_zip_roundtrip).
Defined.

(** ** C3 *)

Lemma zread_in (z : package) (name : string) :
  name ∈ namelist z -> is_Some (zread z name).
Proof.
  induction z as [|[n d] z IH]; simpl; intros Hin.
  - inversion Hin.
  - destruct (zread z name) as [d'|] eqn:E; [eauto|].
    apply elem_of_cons in Hin as [->|Hin].
    + rewrite String.eqb_refl. eauto.
    + apply IH in Hin. destruct Hin as [? ?]. discriminate.
Qed.

Lemma mapM_total {A B} (f : A -> Py.result B) (l : list A) :
  Forall (fun x => exists y, f x = Ok y) l -> exists l', Py.mapM f l = Ok l'.
Proof.
  induction 1 as [|x l [y Hy] _ [l' IH]]; simpl; [eauto|].
  rewrite Hy. simpl. rewrite IH. simpl. eauto.
Qed.

Lemma existsb_eqb_not_in (name : string) (l : list string) :
  name ∉ l -> existsb (String.eqb name) l = false.
Proof.
  induction l as [|n l IH]; simpl; [reflexivity|].
  intros Hn. apply not_elem_of_cons in Hn as [Hne Hn].
  apply String.eqb_neq in Hne. rewrite Hne. simpl. auto.
Qed.

Section bad_input.
Context {X : XmlLib} {Z : ZipLib} {U : Utf8Lib}.

Lemma fix_entry_other_part (zin : package) (o : Fix.options) (item : string * string) :
  item ∈ zin -> fst item <> "word/document.xml" ->
  exists out, Fix.fix_entry zin o item = Ok out.
Proof.
  intros Hin Hne. unfold Fix.fix_entry.
  destruct (zread_in zin (fst item)) as [data ->].
  { unfold namelist. apply list_elem_of_fmap. eauto. }
  apply String.eqb_neq in Hne. rewrite Hne.
  destruct (fst item =? "word/settings.xml")%string; [simpl; eauto|].
  destruct ((fst item =? "word/styles.xml")%string && Fix.fix_fonts o);
    simpl; eauto.
Qed.

Lemma fix_entries_no_document (zin : package) (o : Fix.options) :
  "word/document.xml" ∉ namelist zin ->
  exists zout, Fix.fix_entries zin o = Ok zout.
Proof.
  intros Hdoc. apply mapM_total. apply list.Forall_forall. intros item Hin.
  apply fix_entry_other_part; [exact Hin|].
  intros E. apply Hdoc. unfold namelist. apply list_elem_of_fmap. eauto.
Qed.

Lemma is_valid_docx_unreadable (data : string) :
  zip_open data = None -> Api.is_valid_docx data = false.
Proof.
  intros E. unfold Api.is_valid_docx. rewrite E.
  destruct (_ <? _)%nat; [reflexivity|]. destruct (negb _); reflexivity.
Qed.

Lemma is_valid_docx_no_document (data : string) (z : package) :
  zip_open data = Some z -> "word/document.xml" ∉ namelist z ->
  Api.is_valid_docx data = false.
Proof.
  intros E Hdoc. unfold Api.is_valid_docx. rewrite E.
  rewrite (existsb_eqb_not_in _ _ Hdoc).
  destruct (_ <? _)%nat; [reflexivity|]. destruct (negb _); reflexivity.
Qed.

Lemma fix_docx_text_only :
  zip_roundtrip Z ->
  zip_open (zip_getvalue [("hello.txt", "hi")]) = Some [("hello.txt", "hi")] /\
  existsb (String.eqb "word/document.xml") (namelist [("hello.txt", "hi")]) = false /\
  Fix.fix_docx (zip_getvalue [("hello.txt", "hi")]) Sample.all_on
  = Ok (zip_getvalue [("hello.txt", "hi")]).
Proof.
  intros HZ. split; [apply HZ|]. split; [reflexivity|].
  unfold Fix.fix_docx. rewrite HZ. reflexivity.
Qed.

End bad_input.

(** C3, as the claim states it, fails: a container that can be read and
    holds no [word/document.xml] (here one text file) is not refused by
    [fix_docx], which returns a container with the same entry. *)
Lemma fix_docx_accepts_missing_document :
  @zip_open Plain.zip (@zip_getvalue Plain.zip [("hello.txt", "hi")])
  = Some [("hello.txt", "hi")] /\
  existsb (String.eqb "word/document.xml") (namelist [("hello.txt", "hi")]) = false /\
  @Fix.fix_docx Plain.xml Plain.zip Plain.utf8
    (@zip_getvalue Plain.zip [("hello.txt", "hi")]) Sample.all_on
  = Ok (@zip_getvalue Plain.zip [("hello.txt", "hi")]).
Proof.
  exact (@fix_docx_text_only Plain.xml Plain.zip Plain.utf8 plain_zip_roundtrip).
Qed.

(** C3, amended.  For an input that is not a container, or a container
    without [word/document.xml], the prechecker [is_valid_docx] of the API
    answers [False].  [fix_docx] itself raises (and returns no bytes) on
    the first kind of input only; on a container without the document
    part it returns a container with the names of the input, whose
    entries other than the settings and styles parts read as before. *)
Theorem fix_docx_on_rejected_input {X : XmlLib} {Z : ZipLib} {U : Utf8Lib}
        (input : string) (o : Fix.options) :
  zip_open input = None \/
  (exists zin, zip_open input = Some zin /\ "word/document.xml" ∉ namelist zin) ->
  Api.is_valid_docx input = false /\
  match zip_open input with
  | None => Fix.fix_docx input o = Raise BadZipFile
  | Some zin =>
      exists zout,
        Fix.fix_docx input o = Ok (zip_getvalue zout) /\
        namelist zout = namelist zin /\
        forall name, name ∉ patched_parts -> zread zout name = zread zin name
  end.
Proof.
  intros [E|(zin & E & Hdoc)].
  - split; [apply (is_valid_docx_unreadable _ E)|].
    rewrite E. unfold Fix.fix_docx. rewrite E. reflexivity.
  - split; [apply (is_valid_docx_no_document _ _ E Hdoc)|].
    rewrite E. destruct (fix_entries_no_document zin o Hdoc) as [zout Eout].
    exists zout. unfold Fix.fix_docx. rewrite E, Eout.
    split; [reflexivity|].
    destruct (fix_entries_frame _ _ _ Eout) as (Hn & Hr & _). auto.
Qed.

(** C3, amended, on a container that holds one text file. *)
Lemma fix_docx_on_rejected_input_witness :
  (@zip_open Plain.zip (@zip_getvalue Plain.zip [("hello.txt", "hi")]) = None \/
   exists zin,
     @zip_open Plain.zip (@zip_getvalue Plain.zip [("hello.txt", "hi")]) = Some zin /\
     "word/document.xml" ∉ namelist zin) /\
  @Api.is_valid_docx Plain.zip (@zip_getvalue Plain.zip [("hello.txt", "hi")]) = false.
Proof.
  assert (H : @zip_open Plain.zip (@zip_getvalue Plain.zip [("hello.txt", "hi")]) = None \/
              exists zin,
                @zip_open Plain.zip (@zip_getvalue Plain.zip [("hello.txt", "hi")])
                = Some zin /\ "word/document.xml" ∉ namelist zin).
  { right. exists [("hello.txt", "hi")]. split; [apply plain_zip_roundtrip|].
    simpl. intros Hin. apply list_elem_of_singleton in Hin. discriminate Hin. }
  split; [exact H|].
  exact (proj1 (@fix_docx_on_rejected_input Plain.xml Plain.zip Plain.utf8
                  _ Sample.all_on H)).
Defined.

(** ** C4 *)

Lemma tag_inj (ns a b : string) : Fix.tag ns a = Fix.tag ns b -> a = b.
Proof.
  unfold Fix.tag. intros E. injection E as E.
  induction ns as [|c ns IH]; simpl in E.
  - injection E as E. exact E.
  - injection E as E. auto.
Qed.

Lemma has_tag_other (t t' : string) (c : element) :
  t <> t' -> has_tag t c = true -> has_tag t' c = false.
Proof.
  unfold has_tag. intros Hne E. apply String.eqb_eq in E.
  apply String.eqb_neq. congruence.
Qed.

Lemma remove_first_count (t : string) (cs : list element) :
  count_tag t (remove_first t cs) = Nat.pred (count_tag t cs).
Proof.
  unfold count_tag. induction cs as [|c cs IH]; simpl; [reflexivity|].
  destruct (has_tag t c) eqn:E; simpl; [reflexivity|].
  rewrite E. exact IH.
Qed.

Lemma remove_first_filter (t : string) (p : element -> bool) (cs : list element) :
  (forall c, has_tag t c = true -> p c = false) ->
  List.filter p (remove_first t cs) = List.filter p cs.
Proof.
  intros Hp. induction cs as [|c cs IH]; simpl; [reflexivity|].
  destruct (has_tag t c) eqn:E; simpl.
  - rewrite (Hp c E). reflexivity.
  - rewrite IH. reflexivity.
Qed.

Lemma remove_first_count_other (t t' : string) (cs : list element) :
  t <> t' -> count_tag t' (remove_first t cs) = count_tag t' cs.
Proof.
  intros Hne. unfold count_tag. f_equal. apply remove_first_filter.
  intros c. apply has_tag_other. exact Hne.
Qed.

Lemma strip_flags_cons (bad : string) (names : list string) (compat : element) :
  Fix.strip_flags (bad :: names) compat =
  Fix.strip_flags names
    (with_children compat (remove_first (Fix.tag Fix.W bad) (children compat))).
Proof. reflexivity. Qed.

Lemma strip_flags_stripped (names : list string) (compat : element) :
  NoDup names -> stripped names compat (Fix.strip_flags names compat).
Proof.
  intros Hnd. revert compat.
  induction Hnd as [|bad names Hfresh Hnd IH]; intros compat.
  - unfold stripped. simpl. repeat split; try reflexivity.
    intros bad Hin. inversion Hin.
  - rewrite strip_flags_cons.
    destruct (IH (with_children compat
                    (remove_first (Fix.tag Fix.W bad) (children compat))))
      as (Ht & Ha & Hx & Htl & Hcount & Hrest).
    destruct compat as [t a x cs tl]. simpl in *.
    unfold stripped. simpl. repeat split; try assumption.
    + intros b Hb. apply elem_of_cons in Hb as [->|Hb].
      * rewrite <- remove_first_count.
        assert (Hkeep : forall (l : list string) (c : element),
                  bad ∉ l ->
                  count_tag (Fix.tag Fix.W bad) (children (Fix.strip_flags l c))
                  = count_tag (Fix.tag Fix.W bad) (children c)).
        { clear. induction l as [|b l IHl]; intros c Hn; [reflexivity|].
          apply not_elem_of_cons in Hn as [Hne Hn].
          rewrite strip_flags_cons, (IHl _ Hn). destruct c as [t a x cs tl]. simpl.
          apply remove_first_count_other. intros E. apply tag_inj in E. congruence. }
        apply (Hkeep names (Element t a x _ tl) Hfresh).
      * rewrite (Hcount b Hb). f_equal. apply remove_first_count_other.
        intros E. apply tag_inj in E. subst b. contradiction.
    + assert (Hsub : forall l,
                List.filter (fun x0 => negb (has_tag (Fix.tag Fix.W bad) x0
                                             || listed names x0)) l
                = List.filter (fun x => negb (has_tag (Fix.tag Fix.W bad) x))
                    (List.filter (fun x => negb (listed names x)) l)).
      { clear. induction l as [|c l IHl]; simpl; [reflexivity|].
        destruct (has_tag (Fix.tag Fix.W bad) c) eqn:E1;
          destruct (listed names c) eqn:E2; simpl; rewrite ?E1; simpl;
          rewrite IHl; reflexivity. }
      rewrite !Hsub, Hrest, <- !Hsub. apply remove_first_filter.
      intros c E. rewrite E. reflexivity.
Qed.

Lemma alter_first_find_none (t : string) (f : element -> element) (cs : list element) :
  find_in t cs = None -> alter_first t f cs = cs.
Proof.
  induction cs as [|c cs IH]; simpl; [reflexivity|].
  destruct (has_tag t c); [discriminate|]. intros E. rewrite (IH E). reflexivity.
Qed.

Lemma alter_first_find (t : string) (f : element -> element)
      (cs : list element) (c : element) :
  (forall e, has_tag t e = true -> has_tag t (f e) = true) ->
  find_in t cs = Some c -> find_in t (alter_first t f cs) = Some (f c).
Proof.
  intros Hf. induction cs as [|c0 cs IH]; simpl; [discriminate|].
  destruct (has_tag t c0) eqn:E; simpl.
  - intros [= ->]. rewrite (Hf _ E). reflexivity.
  - rewrite E. exact IH.
Qed.

Lemma strip_flags_tag (names : list string) (c : element) :
  etree.tag (Fix.strip_flags names c) = etree.tag c.
Proof.
  revert c. induction names as [|b names IH]; intros c; [reflexivity|].
  rewrite strip_flags_cons, IH. destruct c; reflexivity.
Qed.

(** C4, as the claim states it, fails on both variants: [_patch_settings]
    leaves [growAutofit] in place, and the third pass of [fix_for_teams]
    leaves [useWord2003FootnoteLineBreakRules]. *)
Lemma compat_flag_survives :
  Fix.patch_settings_root Sample.settings =
  Sample.node (Fix.tag Fix.W "settings")
    [ Sample.leaf (Fix.tag Fix.W "zoom") [(Fix.tag Fix.W "percent", "100")];
      Sample.node (Fix.tag Fix.W "compat")
        [ Sample.leaf (Fix.tag Fix.W "growAutofit") [];
          Sample.leaf (Fix.tag Fix.W "compatSetting")
            [(Fix.tag Fix.W "name", "compatibilityMode")] ] ] /\
  Api.fix_for_teams_compat Sample.settings =
  Sample.node (Fix.tag Fix.W "settings")
    [ Sample.leaf (Fix.tag Fix.W "zoom") [(Fix.tag Fix.W "percent", "100")];
      Sample.node (Fix.tag Fix.W "compat")
        [ Sample.leaf (Fix.tag Fix.W "useWord2003FootnoteLineBreakRules") [];
          Sample.leaf (Fix.tag Fix.W "compatSetting")
            [(Fix.tag Fix.W "name", "compatibilityMode")] ] ].
Proof. split; vm_compute; reflexivity. Qed.

(** C4, amended.  Each variant strips a list of three flags of its own:
    [_patch_settings] the flags [useWord2002TableStyleRules],
    [useWord97LineBreakRules] and [useWord2003FootnoteLineBreakRules],
    the third pass of [fix_for_teams] the flags
    [useWord2002TableStyleRules], [useWord97LineBreakRules] and
    [growAutofit].  Without a [w:compat] child of the root nothing
    changes.  With one, the first [w:compat] loses one child of each
    listed name it has (the first one), and its other children, its
    attributes, text and tail stay as they are. *)
Theorem compat_flags_stripped (root : element) :
  Fix.bad_flags = [ "useWord2002TableStyleRules"; "useWord97LineBreakRules";
                    "useWord2003FootnoteLineBreakRules" ] /\
  Api.bad_flags = [ "useWord2002TableStyleRules"; "useWord97LineBreakRules";
                    "growAutofit" ] /\
  (find root (Fix.tag Fix.W "compat") = None ->
   Fix.patch_settings_root root = root /\ Api.fix_for_teams_compat root = root) /\
  (forall compat, find root (Fix.tag Fix.W "compat") = Some compat ->
     (exists compat',
        find (Fix.patch_settings_root root) (Fix.tag Fix.W "compat") = Some compat' /\
        stripped Fix.bad_flags compat compat') /\
     (exists compat',
        find (Api.fix_for_teams_compat root) (Fix.tag Fix.W "compat") = Some compat' /\
        stripped Api.bad_flags compat compat')) /\
  (forall compat,
     children (Fix.strip_flags Fix.bad_flags compat) =
     remove_first (Fix.tag Fix.W "useWord2003FootnoteLineBreakRules")
       (remove_first (Fix.tag Fix.W "useWord97LineBreakRules")
          (remove_first (Fix.tag Fix.W "useWord2002TableStyleRules")
             (children compat))) /\
     children (Fix.strip_flags Api.bad_flags compat) =
     remove_first (Fix.tag Fix.W "growAutofit")
       (remove_first (Fix.tag Fix.W "useWord97LineBreakRules")
          (remove_first (Fix.tag Fix.W "useWord2002TableStyleRules")
             (children compat)))).
Proof.
  split; [reflexivity|]. split; [reflexivity|].
  split; [|split; [|intros [t a x cs tl]; split; reflexivity]];
    destruct root as [t a x cs tl]; unfold find; simpl.
  - intros E. unfold Fix.patch_settings_root, Api.fix_for_teams_compat. simpl.
    rewrite !alter_first_find_none by exact E. split; reflexivity.
  - intros compat E. split.
    + exists (Fix.strip_flags Fix.bad_flags compat). split.
      * apply alter_first_find; [|exact E].
        intros e He. unfold has_tag in *. rewrite strip_flags_tag. exact He.
      * apply strip_flags_stripped. unfold Fix.bad_flags.
        repeat (apply list.NoDup_cons; split;
                [rewrite ?not_elem_of_cons; repeat split;
                 try discriminate; apply not_elem_of_nil|]).
        apply list.NoDup_nil. exact I.
    + exists (Fix.strip_flags Api.bad_flags compat). split.
      * apply alter_first_find; [|exact E].
        intros e He. unfold has_tag in *. rewrite strip_flags_tag. exact He.
      * apply strip_flags_stripped. unfold Api.bad_flags.
        repeat (apply list.NoDup_cons; split;
                [rewrite ?not_elem_of_cons; repeat split;
                 try discriminate; apply not_elem_of_nil|]).
        apply list.NoDup_nil. exact I.
Qed.

(** ** C5 *)

Lemma int_two_dashes (s : string) :
  Py.int (String "-" (String "-" s)) = Raise ValueError.
Proof. reflexivity. Qed.

Lemma clamp_two_dashes (attr s : string) (max_val : Z) (spacing : element) :
  get spacing (Fix.tag Fix.W attr) = Some (String "-" (String "-" s)) ->
  Py.isdigit (Py.lstrip "-" s) = true ->
  Fix._clamp attr max_val spacing = Raise ValueError.
Proof.
  intros E Hd. unfold Fix._clamp. rewrite E.
  unfold Fix.looks_numeric. cbn [Py.truthy Py.lstrip Ascii.eqb Bool.eqb andb].
  rewrite Hd. reflexivity.
Qed.

(** What [_clamp] does, by the value of the attribute. *)
Lemma clamp_cases (attr : string) (max_val : Z) (spacing : element) :
  match get spacing (Fix.tag Fix.W attr) with
  | None => Fix._clamp attr max_val spacing = Ok spacing
  | Some val =>
      if Fix.looks_numeric (Some val) then
        match Py.int val with
        | Ok v =>
            Fix._clamp attr max_val spacing =
            Ok (if v >? max_val
                then set spacing (Fix.tag Fix.W attr) (Py.str max_val)
                else spacing)
        | Raise e => Fix._clamp attr max_val spacing = Raise e
        end
      else Fix._clamp attr max_val spacing = Ok spacing
  end.
Proof.
  unfold Fix._clamp. destruct (get spacing (Fix.tag Fix.W attr)) as [val|];
    [|reflexivity].
  destruct (Fix.looks_numeric (Some val)); [|reflexivity]. simpl.
  destruct (Py.int val) as [v|e]; simpl; [|reflexivity].
  destruct (v >? max_val); reflexivity.
Qed.

Section two_dashes.
Context {X : XmlLib} {Z : ZipLib} {U : Utf8Lib}.

Lemma fix_docx_two_dash_doc :
  xml_roundtrip X -> zip_roundtrip Z ->
  Fix.fix_docx (zip_getvalue [("word/document.xml", tostring Sample.two_dash_doc)])
    Sample.all_on = Raise ValueError.
Proof.
  intros HX HZ. rewrite (fix_docx_document_only _ _ HX HZ).
  rewrite (patch_document_parsed _ Sample.two_dash_doc) by apply HX.
  vm_compute. reflexivity.
Qed.

End two_dashes.

(** C5.  The guard of the Spacing Fixer, [val.lstrip('-').isdigit()], lets
    the value [--200] through, and [int] then raises: for a paragraph
    whose spacing has [w:before="--200"] the fixer does not leave the
    value as it is, it raises [ValueError], and the exception leaves
    [_patch_document] and [fix_docx], which produces no output. *)
Theorem spacing_two_dashes_raises :
  Fix.looks_numeric (Some "--200") = true /\
  Py.int "--200" = Raise ValueError /\
  Fix._fix_paragraph_spacing
    (Sample.pPr_spacing [(Fix.tag Fix.W "before", "--200")]) = Raise ValueError /\
  @Fix.fix_docx Plain.xml Plain.zip Plain.utf8
    (@zip_getvalue Plain.zip
       [("word/document.xml", @tostring Plain.xml Sample.two_dash_doc)])
    Sample.all_on = Raise ValueError.
Proof.
  split; [reflexivity|]. split; [reflexivity|]. split; [vm_compute; reflexivity|].
  exact (@fix_docx_two_dash_doc Plain.xml Plain.zip Plain.utf8
           plain_xml_roundtrip plain_zip_roundtrip).
Qed.

(** ** C6 *)

Lemma find_desc_None (t tg : string) a x (cs : list element) tl :
  find_desc t (Element tg a x cs tl) = None <->
  Forall (fun c => has_tag t c = false /\ find_desc t c = None) cs.
Proof.
  simpl. induction cs as [|c cs IH].
  - split; [constructor | reflexivity].
  - destruct (has_tag t c) eqn:Et.
    + split; [discriminate|]. intros H. inversion H as [|? ? [Hc _] _]. congruence.
    + destruct (find_desc t c) as [d|] eqn:Ed.
      * split; [discriminate|]. intros H. inversion H as [|? ? [_ Hc] _]. congruence.
      * rewrite IH. split.
        -- intros H. constructor; auto.
        -- intros H. inversion H; assumption.
Qed.

Lemma find_in_elem (t : string) (cs : list element) (c : element) :
  find_in t cs = Some c -> c ∈ cs /\ has_tag t c = true.
Proof.
  induction cs as [|c0 cs IH]; simpl; [discriminate|].
  destruct (has_tag t c0) eqn:E.
  - intros [= <-]. split; [apply list_elem_of_here | exact E].
  - intros H. destruct (IH H). split; [apply list_elem_of_further|]; assumption.
Qed.

Lemma fix_images_below_tag (e : element) :
  etree.tag (Fix.fix_images_below e) = etree.tag e.
Proof.
  destruct e as [tg a x cs tl]. simpl.
  destruct (tg =? Fix.tag Fix.W "drawing")%string; [|reflexivity].
  destruct (Fix.anchor_and_graphic cs) as [[? ?]|]; reflexivity.
Qed.

Lemma map_keeps_find_in (f : element -> element) (t : string) (cs : list element) :
  (forall e, etree.tag (f e) = etree.tag e) ->
  find_in t (map f cs) = option_map f (find_in t cs).
Proof.
  intros Hf. induction cs as [|c cs IH]; simpl; [reflexivity|].
  unfold has_tag in *. rewrite Hf. destruct (etree.tag c =? t)%string; auto.
Qed.

Lemma map_keeps_count (f : element -> element) (t : string) (cs : list element) :
  (forall e, etree.tag (f e) = etree.tag e) ->
  count_tag t (map f cs) = count_tag t cs.
Proof.
  intros Hf. unfold count_tag. induction cs as [|c cs IH]; simpl; [reflexivity|].
  unfold has_tag in *. rewrite Hf. destruct (etree.tag c =? t)%string; simpl; auto.
Qed.

Lemma map_remove_first (f : element -> element) (t : string) (cs : list element) :
  (forall e, etree.tag (f e) = etree.tag e) ->
  remove_first t (map f cs) = map f (remove_first t cs).
Proof.
  intros Hf. induction cs as [|c cs IH]; simpl; [reflexivity|].
  unfold has_tag in *. rewrite Hf. destruct (etree.tag c =? t)%string; simpl; congruence.
Qed.

Lemma count_tag_app (t : string) (l1 l2 : list element) :
  count_tag t (l1 ++ l2) = (count_tag t l1 + count_tag t l2)%nat.
Proof. unfold count_tag. rewrite List.filter_app, length_app. reflexivity. Qed.

Lemma count_tag_one (t : string) a x cs tl :
  count_tag t [Element t a x cs tl] = 1%nat.
Proof. unfold count_tag, has_tag. simpl. rewrite String.eqb_refl. reflexivity. Qed.

(** No graphic below an element: the image loop leaves the element and
    everything below it as it is. *)
Lemma fix_images_below_no_graphic (e : element) :
  find_desc (Fix.tag Fix.A "graphic") e = None -> Fix.fix_images_below e = e.
Proof.
  induction e as [tg a x cs tl IH] using element_ind. intros Hnone.
  apply find_desc_None in Hnone.
  assert (Hmap : map Fix.fix_images_below cs = cs).
  { clear -IH Hnone. induction cs as [|c cs IHcs]; [reflexivity|].
    inversion IH as [|? ? Hc IH']; subst. inversion Hnone as [|? ? [_ Hn] Hnone']; subst.
    simpl. rewrite (Hc Hn), (IHcs IH' Hnone'). reflexivity. }
  assert (Hno : Fix.anchor_and_graphic cs = None).
  { unfold Fix.anchor_and_graphic.
    destruct (find_in (Fix.tag Fix.WP "anchor") cs) as [an|] eqn:Ean; [|reflexivity].
    apply find_in_elem in Ean as [Hin _].
    rewrite list.Forall_forall in Hnone. destruct (Hnone an Hin) as [_ ->].
    reflexivity. }
  simpl. rewrite Hmap, Hno.
  destruct (tg =? Fix.tag Fix.W "drawing")%string; reflexivity.
Qed.

(** The inline [make_inline] builds, written out. *)
Lemma make_inline_shape (anchor graphic : element) :
  Fix.make_inline anchor graphic =
  Element (Fix.tag Fix.WP "inline")
    [("distT", "0"); ("distB", "0"); ("distL", "114240"); ("distR", "114240")]
    None
    ([ Element (Fix.tag Fix.WP "extent")
         [ ("cx", match find anchor (Fix.tag Fix.WP "extent") with
                  | Some ex => default "3000000" (get ex "cx")
                  | None => "3000000"
                  end);
           ("cy", match find anchor (Fix.tag Fix.WP "extent") with
                  | Some ex => default "2000000" (get ex "cy")
                  | None => "2000000"
                  end) ] None [] None;
       Element (Fix.tag Fix.WP "effectExtent")
         [("l", "0"); ("t", "0"); ("r", "0"); ("b", "0")] None [] None ]
     ++ match find anchor (Fix.tag Fix.WP "docPr") with
        | Some docPr => [docPr]
        | None => []
        end
     ++ [graphic])%list
    None.
Proof.
  unfold Fix.make_inline.
  destruct (find anchor (Fix.tag Fix.WP "docPr")); reflexivity.
Qed.



Example anchor_conversion_example :
  Fix.fix_images_below
    (Sample.node (Fix.tag Fix.W "drawing") [Sample.anchor "500000" "400000" "1"])
  = Sample.node (Fix.tag Fix.W "drawing")
      [ Element (Fix.tag Fix.WP "inline")
          [("distT", "0"); ("distB", "0"); ("distL", "114240"); ("distR", "114240")]
          None
          [ Sample.leaf (Fix.tag Fix.WP "extent") [("cx", "500000"); ("cy", "400000")];
            Sample.leaf (Fix.tag Fix.WP "effectExtent")
              [("l", "0"); ("t", "0"); ("r", "0"); ("b", "0")];
            Sample.leaf (Fix.tag Fix.WP "docPr") [("id", "1")];
            Sample.graphic "1" ]
          None ].
Proof. vm_compute. reflexivity. Qed.

(** ** Loops over [findall] *)

Lemma findall_desc_unfold (t tg : string) a x (cs : list element) tl :
  findall_desc t (Element tg a x cs tl) =
  flat_map (fun c => ((if has_tag t c then [c] else []) ++ findall_desc t c)%list) cs.
Proof.
  simpl. induction cs as [|c cs IH]; simpl; [reflexivity|].
  rewrite IH, <- app_assoc. reflexivity.
Qed.

Lemma for_findall_tag (t : string) (f : element -> element) (e : element) :
  etree.tag (for_findall t f e) = etree.tag e.
Proof. destruct e; reflexivity. Qed.

(** The elements a loop has visited, as [findall] lists them afterwards:
    each element of the list taken before the loop, after the visits below
    it and its own. *)
Lemma findall_for_findall (t : string) (f : element -> element) :
  (forall e, etree.tag (f e) = etree.tag e) ->
  (forall e, findall_desc t (f e) = findall_desc t e) ->
  forall e,
    findall_desc t (for_findall t f e) =
    map (fun p => f (for_findall t f p)) (findall_desc t e).
Proof.
  intros Htag Hdesc e. induction e as [tg a x cs tl IH] using element_ind.
  cbn [for_findall]. rewrite !findall_desc_unfold.
  induction cs as [|c cs IHcs]; [reflexivity|].
  inversion IH as [|? ? Hc IH']; subst. cbn [map flat_map].
  rewrite map_app, (IHcs IH'). f_equal.
  destruct (has_tag t c) eqn:Et.
  - unfold has_tag. rewrite Htag, for_findall_tag. fold (has_tag t c). rewrite Et.
    rewrite Hdesc, Hc. reflexivity.
  - unfold has_tag. rewrite for_findall_tag. fold (has_tag t c). rewrite Et.
    rewrite Hc. reflexivity.
Qed.

Lemma find_desc_replace_desc (t : string) (d root body : element) :
  has_tag t d = true ->
  find_desc t root = Some body ->
  find_desc t (replace_desc t d root) = Some d.
Proof.
  intros Hd. revert body.
  induction root as [tg a x cs tl IH] using element_ind. intros body.
  simpl. induction cs as [|c cs IHcs]; [discriminate|].
  inversion IH as [|? ? Hc IH']; subst.
  destruct (has_tag t c) eqn:Et.
  - intros _. rewrite Hd. reflexivity.
  - destruct (find_desc t c) as [b|] eqn:Eb.
    + intros _.
      assert (Ht : has_tag t (replace_desc t d c) = false).
      { destruct c. exact Et. }
      rewrite Ht, (Hc b eq_refl). reflexivity.
    + intros E. rewrite Et, Eb. apply (IHcs IH' E).
Qed.

Lemma map_fixed {A} (g : A -> A) (l : list A) :
  map g l = l -> Forall (fun p => g p = p) l.
Proof.
  induction l as [|p l IH]; simpl; intros E; constructor.
  - congruence.
  - apply IH. congruence.
Qed.

(** ** C7 *)

Lemma flat_map_alter_first {B} (h : element -> list B) (t : string)
      (g : element -> element) (cs : list element) :
  (forall c, has_tag t c = true -> h (g c) = h c) ->
  flat_map h (alter_first t g cs) = flat_map h cs.
Proof.
  intros Hg. induction cs as [|c cs IH]; simpl; [reflexivity|].
  destruct (has_tag t c) eqn:E; simpl.
  - rewrite (Hg c E). reflexivity.
  - rewrite IH. reflexivity.
Qed.

Lemma fix_tbl_tag (e : element) : etree.tag (Fix.fix_tbl e) = etree.tag e.
Proof.
  unfold Fix.fix_tbl. destruct e as [tg a x cs tl]. unfold find. simpl.
  destruct (find_in (Fix.tag Fix.W "tblPr") cs); reflexivity.
Qed.

Lemma fix_tbl_findall (e : element) :
  findall_desc (Fix.tag Fix.W "tbl") (Fix.fix_tbl e)
  = findall_desc (Fix.tag Fix.W "tbl") e.
Proof.
  assert (Hstep : forall cs,
            flat_map (fun c => ((if has_tag (Fix.tag Fix.W "tbl") c then [c] else [])
                                ++ findall_desc (Fix.tag Fix.W "tbl") c)%list)
              (alter_first (Fix.tag Fix.W "tblPr")
                 (fun tblPr =>
                    match find tblPr (Fix.tag Fix.W "tblCellMar") with
                    | Some _ => tblPr
                    | None => append tblPr Fix.default_tblCellMar
                    end) cs)
            = flat_map (fun c => ((if has_tag (Fix.tag Fix.W "tbl") c then [c] else [])
                                  ++ findall_desc (Fix.tag Fix.W "tbl") c)%list) cs).
  { intros cs. apply flat_map_alter_first. intros c Hc.
    destruct (find c (Fix.tag Fix.W "tblCellMar")); [reflexivity|].
    assert (Ht : forall c', etree.tag c' = etree.tag c ->
                 has_tag (Fix.tag Fix.W "tbl") c' = false).
    { intros c' E. unfold has_tag in *. rewrite E. apply String.eqb_eq in Hc.
      rewrite Hc. reflexivity. }
    rewrite (Ht c eq_refl), (Ht (append c Fix.default_tblCellMar)) by (destruct c; reflexivity).
    f_equal. destruct c as [tg a x cs' tl]. unfold append. cbn [children with_children].
    rewrite !findall_desc_unfold, flat_map_app. cbn [flat_map].
    assert (Hd : ((if has_tag (Fix.tag Fix.W "tbl") Fix.default_tblCellMar
                   then [Fix.default_tblCellMar] else [])
                  ++ findall_desc (Fix.tag Fix.W "tbl") Fix.default_tblCellMar)%list
                 = @nil element) by reflexivity.
    rewrite Hd. cbn [app]. apply List.app_nil_r. }
  unfold Fix.fix_tbl. destruct e as [tg a x cs tl]. unfold find. cbn [children].
  destruct (find_in (Fix.tag Fix.W "tblPr") cs) eqn:E.
  - cbn [with_children children]. rewrite !findall_desc_unfold. apply Hstep.
  - unfold SubElement_first. cbn [with_children children].
    rewrite !findall_desc_unfold, Hstep. reflexivity.
Qed.

Lemma find_in_app_new (t : string) (cs : list element) (c : element) :
  find_in t cs = None -> has_tag t c = true -> find_in t (cs ++ [c]) = Some c.
Proof.
  intros E Hc. induction cs as [|c0 cs IH]; simpl in *.
  - rewrite Hc. reflexivity.
  - destruct (has_tag t c0); [discriminate|auto].
Qed.

Lemma alter_first_found (t : string) (g : element -> element)
      (cs : list element) (p : element) :
  find_in t cs = Some p ->
  alter_first t g cs = alter_first t (fun _ => g p) cs.
Proof.
  induction cs as [|c cs IH]; simpl; [reflexivity|].
  destruct (has_tag t c).
  - intros [= ->]. reflexivity.
  - intros E. rewrite (IH E). reflexivity.
Qed.

Lemma alter_first_same (t : string) (cs : list element) (p : element) :
  find_in t cs = Some p -> alter_first t (fun _ => p) cs = cs.
Proof.
  induction cs as [|c cs IH]; simpl; [reflexivity|].
  destruct (has_tag t c).
  - intros [= ->]. reflexivity.
  - intros E. rewrite (IH E). reflexivity.
Qed.

Lemma fix_tbl_cases (tg : string) a x (cs : list element) tl :
  Fix.fix_tbl (Element tg a x cs tl) =
  match find_in (Fix.tag Fix.W "tblPr") cs with
  | None =>
      Element tg a x
        (Element (Fix.tag Fix.W "tblPr") [] None [Fix.default_tblCellMar] None :: cs) tl
  | Some tblPr =>
      match find_in (Fix.tag Fix.W "tblCellMar") (children tblPr) with
      | Some _ => Element tg a x cs tl
      | None =>
          Element tg a x
            (alter_first (Fix.tag Fix.W "tblPr")
               (fun _ => with_children tblPr
                           (children tblPr ++ [Fix.default_tblCellMar])%list) cs) tl
      end
  end.
Proof.
  unfold Fix.fix_tbl, find. cbn [children].
  destruct (find_in (Fix.tag Fix.W "tblPr") cs) as [tblPr|] eqn:E.
  - cbn [with_children children]. rewrite (alter_first_found _ _ _ _ E).
    destruct (find_in (Fix.tag Fix.W "tblCellMar") (children tblPr)).
    + rewrite (alter_first_same _ _ _ E). reflexivity.
    + reflexivity.
  - reflexivity.
Qed.

(** C7, as the claim states it, fails: when the table properties exist
    and hold other children, the new [w:tblCellMar] is their last child,
    not their first. *)
Lemma tblCellMar_goes_last :
  Fix._fix_tables (Sample.node (Fix.tag Fix.W "body") [Sample.table_with_width]) =
  Sample.node (Fix.tag Fix.W "body")
    [ Sample.node (Fix.tag Fix.W "tbl")
        [ Sample.node (Fix.tag Fix.W "tblPr")
            [ Sample.leaf (Fix.tag Fix.W "tblW") [(Fix.tag Fix.W "w", "5000")];
              Fix.default_tblCellMar ];
          Sample.node (Fix.tag Fix.W "tr") [] ] ].
Proof. vm_compute. reflexivity. Qed.

(** C7, amended.  After its turn of the loop a table has a [w:tblPr]
    child that has a [w:tblCellMar] child.  A table without [w:tblPr]
    receives a new one as its first child, holding the margins; a table
    whose first [w:tblPr] has no [w:tblCellMar] has the margins appended
    to that element as its last child; a table whose first [w:tblPr] has
    a [w:tblCellMar] is left as it is.  The new margins have the four
    sides top, left, bottom, right, each with [w:w="80"] and
    [w:type="dxa"].  The loop gives every table below the body its
    turn. *)
Theorem table_margins_ensured (tbl : element) :
  (exists tblPr mar,
     find (Fix.fix_tbl tbl) (Fix.tag Fix.W "tblPr") = Some tblPr /\
     find tblPr (Fix.tag Fix.W "tblCellMar") = Some mar) /\
  (find tbl (Fix.tag Fix.W "tblPr") = None ->
   Fix.fix_tbl tbl =
   with_children tbl
     (Element (Fix.tag Fix.W "tblPr") [] None [Fix.default_tblCellMar] None
        :: children tbl)) /\
  (forall tblPr,
     find tbl (Fix.tag Fix.W "tblPr") = Some tblPr ->
     find tblPr (Fix.tag Fix.W "tblCellMar") = None ->
     Fix.fix_tbl tbl =
     with_children tbl
       (alter_first (Fix.tag Fix.W "tblPr")
          (fun _ => with_children tblPr (children tblPr ++ [Fix.default_tblCellMar])%list)
          (children tbl))) /\
  (forall tblPr mar,
     find tbl (Fix.tag Fix.W "tblPr") = Some tblPr ->
     find tblPr (Fix.tag Fix.W "tblCellMar") = Some mar ->
     Fix.fix_tbl tbl = tbl) /\
  Fix.default_tblCellMar =
  Element (Fix.tag Fix.W "tblCellMar") [] None
    (map (fun side =>
            Element (Fix.tag Fix.W side)
              [(Fix.tag Fix.W "w", "80"); (Fix.tag Fix.W "type", "dxa")] None [] None)
       ["top"; "left"; "bottom"; "right"]) None /\
  (forall body,
     findall_desc (Fix.tag Fix.W "tbl") (Fix._fix_tables body) =
     map (fun t => Fix.fix_tbl (Fix._fix_tables t))
       (findall_desc (Fix.tag Fix.W "tbl") body)).
Proof.
  destruct tbl as [tg a x cs tl]. rewrite fix_tbl_cases. unfold find.
  cbn [children with_children].
  split; [|split; [|split; [|split; [|split]]]].
  - destruct (find_in (Fix.tag Fix.W "tblPr") cs) as [tblPr|] eqn:E.
    + destruct (find_in (Fix.tag Fix.W "tblCellMar") (children tblPr)) as [m|] eqn:Em.
      * cbn [children]. rewrite E. eexists _, _. split; [reflexivity | exact Em].
      * cbn [children].
        rewrite (alter_first_find _ _ _ tblPr) by
          ((intros e _; apply find_in_elem in E as [_ E]; destruct tblPr; exact E)
           || exact E).
        eexists _, _. split; [reflexivity|].
        destruct tblPr as [tg' a' x' cs' tl']. cbn [children with_children] in *.
        apply find_in_app_new; [exact Em | reflexivity].
    + cbn. eexists _, _. split; reflexivity.
  - intros E. rewrite E. reflexivity.
  - intros tblPr E Em. rewrite E, Em. reflexivity.
  - intros tblPr mar E Em. rewrite E, Em. reflexivity.
  - reflexivity.
  - intros body. unfold Fix._fix_tables.
    apply findall_for_findall; [apply fix_tbl_tag | apply fix_tbl_findall].
Qed.

(** ** C8 *)

Lemma replace_absent (old new s : string) :
  Py.occurs old s = false -> Py.replace old new s = s.
Proof.
  unfold Py.replace. induction s as [|a s IH]; [reflexivity|].
  cbn [Py.occurs Py.replace_from]. intros H. apply orb_false_iff in H as [H1 H2].
  rewrite H1, (IH H2). reflexivity.
Qed.

(** C8, as the claim states it, fails: the styles patcher leaves the font
    name [Symbol] in the style XML, which the table of the run-level
    fixer maps to [Arial]. *)
Lemma patch_styles_keeps_symbol :
  @Fix._patch_styles Plain.utf8 "<w:rFonts w:ascii='Symbol' w:hAnsi='Wingdings'/>"
  = "<w:rFonts w:ascii='Symbol' w:hAnsi='Wingdings'/>" /\
  Fix.replace_all Fix.UNSAFE "<w:rFonts w:ascii='Symbol' w:hAnsi='Wingdings'/>"
  = "<w:rFonts w:ascii='Arial' w:hAnsi='Arial'/>".
Proof. split; vm_compute; reflexivity. Qed.

(** C8, amended.  The styles part reaches the styles patcher when font
    fixing is requested, and is copied otherwise.  The patcher
    substitutes text in the decoded style XML with a table of its own, of two entries, [Calibri Light] to
    [Calibri] and then [Cambria Math] to [Cambria]; both are entries of
    the table of the run-level fixer, whose other five names ([Symbol],
    [Wingdings] and its two variants, [Webdings]) it does not replace: a
    text in which neither of the two names occurs is encoded as decoded. *)
Theorem patch_styles_table {X : XmlLib} {U : Utf8Lib} (xml_bytes : string) :
  (forall (zin : package) (o : Fix.options) (data : string),
     zread zin "word/styles.xml" = Some data ->
     Fix.fix_entry zin o ("word/styles.xml", data) =
     Ok ("word/styles.xml",
         if Fix.fix_fonts o then Fix._patch_styles data else data)) /\
  Fix._patch_styles xml_bytes =
  encode_utf8
    (Py.replace "Cambria Math" "Cambria"
       (Py.replace "Calibri Light" "Calibri" (decode_utf8_replace xml_bytes))) /\
  map fst Fix.replacements = ["Calibri Light"; "Cambria Math"] /\
  Forall (fun on => Py.dict_get Fix.UNSAFE (fst on) = Some (snd on)) Fix.replacements /\
  map fst Fix.UNSAFE =
  (map fst Fix.replacements
     ++ ["Symbol"; "Wingdings"; "Wingdings 2"; "Wingdings 3"; "Webdings"])%list /\
  (Py.occurs "Calibri Light" (decode_utf8_replace xml_bytes) = false ->
   Py.occurs "Cambria Math" (decode_utf8_replace xml_bytes) = false ->
   Fix._patch_styles xml_bytes = encode_utf8 (decode_utf8_replace xml_bytes)).
Proof.
  split.
  { intros zin o data E. unfold Fix.fix_entry. cbn [fst]. rewrite E.
    cbn. destruct (Fix.fix_fonts o); reflexivity. }
  split; [reflexivity|]. split; [reflexivity|].
  split; [repeat constructor|]. split; [reflexivity|].
  intros H1 H2. unfold Fix._patch_styles, Fix._patch_styles_try, Fix.replace_all.
  cbn [Py.try_except Fix.replacements fold_left fst snd].
  rewrite (replace_absent _ _ _ H1), (replace_absent _ _ _ H2). reflexivity.
Qed.

(** ** C9 *)

Lemma find_desc_has_tag (t : string) (e d : element) :
  find_desc t e = Some d -> has_tag t d = true.
Proof.
  revert d. induction e as [tg a x cs tl IH] using element_ind. intros d. simpl.
  induction cs as [|c cs IHcs]; [discriminate|].
  inversion IH as [|? ? Hc IH']; subst.
  destruct (has_tag t c) eqn:Et; [intros [= <-]; exact Et|].
  destruct (find_desc t c) as [b|] eqn:Eb; [intros [= <-]; apply (Hc b eq_refl)|].
  apply (IHcs IH').
Qed.

Lemma ensure_pPr_children (p : element) :
  children (Fix.ensure_pPr p) =
  match find p (Fix.tag Fix.W "pPr") with
  | Some _ => children p
  | None => new (Fix.tag Fix.W "pPr") :: children p
  end.
Proof.
  unfold Fix.ensure_pPr. destruct (find p (Fix.tag Fix.W "pPr")); [reflexivity|].
  destruct p; reflexivity.
Qed.

Lemma ensure_pPr_tag (p : element) : etree.tag (Fix.ensure_pPr p) = etree.tag p.
Proof.
  unfold Fix.ensure_pPr. destruct (find p (Fix.tag Fix.W "pPr")); [reflexivity|].
  destruct p; reflexivity.
Qed.

Lemma ensure_pPr_found (p : element) :
  exists pPr, find (Fix.ensure_pPr p) (Fix.tag Fix.W "pPr") = Some pPr.
Proof.
  unfold Fix.ensure_pPr. destruct (find p (Fix.tag Fix.W "pPr")) as [q|] eqn:E.
  - rewrite E. eauto.
  - destruct p. cbn. eauto.
Qed.

Lemma ensure_pPr_findall (p : element) :
  findall_desc (Fix.tag Fix.W "p") (Fix.ensure_pPr p)
  = findall_desc (Fix.tag Fix.W "p") p.
Proof.
  unfold Fix.ensure_pPr. destruct (find p (Fix.tag Fix.W "pPr")); [reflexivity|].
  destruct p as [tg a x cs tl]. unfold SubElement_first. cbn [with_children children].
  rewrite !findall_desc_unfold. reflexivity.
Qed.

Lemma alterM_first_pure (t : string) (f : element -> Py.result element)
      (cs : list element) :
  (forall c, f c = Ok c) -> alterM_first t f cs = Ok cs.
Proof.
  intros Hf. induction cs as [|c cs IH]; simpl; [reflexivity|].
  destruct (has_tag t c).
  - rewrite Hf. reflexivity.
  - rewrite IH. reflexivity.
Qed.

Lemma forM_findall_pure (t : string) (f : element -> Py.result element)
      (g : element -> element) (e : element) :
  (forall c, f c = Ok (g c)) -> forM_findall t f e = Ok (for_findall t g e).
Proof.
  intros Hf. induction e as [tg a x cs tl IH] using element_ind.
  cbn [forM_findall for_findall].
  rewrite (mapM_pure _ (fun c => let c' := for_findall t g c in
                                 if has_tag t c then g c' else c')).
  - reflexivity.
  - eapply list.Forall_impl; [exact IH|]. intros c Hc. cbn beta. rewrite Hc. cbn.
    destruct (has_tag t c); [apply Hf | reflexivity].
Qed.

Lemma patch_paragraph_flags_off (o : Fix.options) (para : element) :
  Fix.fix_spacing o = false -> Fix.fix_margins o = false -> Fix.fix_fonts o = false ->
  Fix.patch_paragraph o para = Ok (Fix.ensure_pPr para).
Proof.
  intros H1 H2 H3. unfold Fix.patch_paragraph. rewrite H1, H2, H3.
  rewrite alterM_first_pure by reflexivity. cbn.
  destruct (Fix.ensure_pPr para); reflexivity.
Qed.

Lemma patch_body_flags_off (o : Fix.options) (body : element) :
  Fix.fix_spacing o = false -> Fix.fix_margins o = false -> Fix.fix_fonts o = false ->
  Fix.fix_images o = false -> Fix.fix_tables o = false ->
  Fix.patch_body o body = Ok (for_findall (Fix.tag Fix.W "p") Fix.ensure_pPr body).
Proof.
  intros H1 H2 H3 H4 H5. unfold Fix.patch_body.
  rewrite (forM_findall_pure _ _ Fix.ensure_pPr)
    by (intros c; apply patch_paragraph_flags_off; assumption).
  rewrite H4, H5. reflexivity.
Qed.

(** A body in which some paragraph has no [w:pPr] is not the body the
    paragraph loop leaves. *)
Lemma ensure_pPr_changes (body : element) :
  Exists (fun p => find p (Fix.tag Fix.W "pPr") = None)
         (findall_desc (Fix.tag Fix.W "p") body) ->
  for_findall (Fix.tag Fix.W "p") Fix.ensure_pPr body <> body.
Proof.
  intros Hex E.
  pose proof (findall_for_findall (Fix.tag Fix.W "p") Fix.ensure_pPr
                ensure_pPr_tag ensure_pPr_findall body) as Hl.
  rewrite E in Hl. symmetry in Hl. apply map_fixed in Hl.
  rewrite list.Forall_forall in Hl. apply Exists_exists in Hex as (p & Hin & Hp).
  apply list_elem_of_In in Hin. specialize (Hl p Hin). cbn beta in Hl.
  destruct (ensure_pPr_found (for_findall (Fix.tag Fix.W "p") Fix.ensure_pPr p))
    as [q Hq].
  rewrite Hl in Hq. congruence.
Qed.

(** C9.  When the document part parses and its tree has a body, then,
    with the five flags off, [_patch_document] returns the serialisation
    of the whole tree in which every paragraph below the body that had no
    [w:pPr] child has a new, empty one as its first child, and nothing
    else differs: every paragraph has a [w:pPr] afterwards.  When some
    paragraph had none, the tree serialised is not the tree parsed, and,
    for a parser that reads back what the serialiser writes, the bytes
    returned are not the bytes received. *)
Theorem patch_document_inserts_pPr {X : XmlLib}
        (xml_bytes : string) (root body : element) (o : Fix.options) :
  fromstring_recover xml_bytes = Some root ->
  find_desc (Fix.tag Fix.W "body") root = Some body ->
  Fix.fix_spacing o = false -> Fix.fix_margins o = false ->
  Fix.fix_fonts o = false -> Fix.fix_images o = false ->
  Fix.fix_tables o = false ->
  let body' := for_findall (Fix.tag Fix.W "p") Fix.ensure_pPr body in
  let root' := replace_desc (Fix.tag Fix.W "body") body' root in
  Fix._patch_document xml_bytes o = Ok (tostring root') /\
  findall_desc (Fix.tag Fix.W "p") body' =
  map (fun p => Fix.ensure_pPr (for_findall (Fix.tag Fix.W "p") Fix.ensure_pPr p))
    (findall_desc (Fix.tag Fix.W "p") body) /\
  (forall p,
     children (Fix.ensure_pPr p) =
     match find p (Fix.tag Fix.W "pPr") with
     | Some _ => children p
     | None => Element (Fix.tag Fix.W "pPr") [] None [] None :: children p
     end) /\
  Forall (fun p' => exists pPr, find p' (Fix.tag Fix.W "pPr") = Some pPr)
         (findall_desc (Fix.tag Fix.W "p") body') /\
  (Exists (fun p => find p (Fix.tag Fix.W "pPr") = None)
          (findall_desc (Fix.tag Fix.W "p") body) ->
   root' <> root /\ (xml_roundtrip X -> tostring root' <> xml_bytes)).
Proof.
  intros Eroot Ebody H1 H2 H3 H4 H5 body' root'.
  pose proof (findall_for_findall (Fix.tag Fix.W "p") Fix.ensure_pPr
                ensure_pPr_tag ensure_pPr_findall body) as Hl.
  split; [|split; [exact Hl|split; [exact ensure_pPr_children|split]]].
  - rewrite (patch_document_parsed _ _ _ Eroot), Ebody.
    rewrite (patch_body_flags_off _ _ H1 H2 H3 H4 H5). reflexivity.
  - fold body' in Hl. rewrite Hl. apply list.Forall_forall. intros p' Hin.
    apply list_elem_of_fmap in Hin as (p & -> & _). apply ensure_pPr_found.
  - intros Hex.
    assert (Hne : root' <> root).
    { intros E.
      pose proof (find_desc_replace_desc (Fix.tag Fix.W "body") body' root body) as Hf.
      fold root' in Hf. rewrite E, Ebody in Hf.
      assert (Hb : body = body').
      { symmetry. apply Some_inj. symmetry. apply Hf; [|reflexivity].
        unfold body', has_tag. rewrite for_findall_tag.
        apply (find_desc_has_tag _ _ _ Ebody). }
      apply (ensure_pPr_changes body Hex). symmetry. exact Hb. }
    split; [exact Hne|]. intros HX E.
    pose proof (proj2 (HX root')) as Hr. rewrite E, Eroot in Hr. congruence.
Qed.

(** C9 on a document of one paragraph without properties. *)
Lemma patch_document_inserts_pPr_witness :
  @fromstring_recover Plain.xml (@tostring Plain.xml Sample.plain_doc)
  = Some Sample.plain_doc /\
  find_desc (Fix.tag Fix.W "body") Sample.plain_doc
  = Some (Sample.node (Fix.tag Fix.W "body")
            [Sample.node (Fix.tag Fix.W "p") [Sample.run "Hello"]]) /\
  @Fix._patch_document Plain.xml (@tostring Plain.xml Sample.plain_doc) Sample.all_off
  = Ok (@tostring Plain.xml
          (replace_desc (Fix.tag Fix.W "body")
             (for_findall (Fix.tag Fix.W "p") Fix.ensure_pPr
                (Sample.node (Fix.tag Fix.W "body")
                   [Sample.node (Fix.tag Fix.W "p") [Sample.run "Hello"]]))
             Sample.plain_doc)).
Proof.
  split; [apply plain_xml_roundtrip|]. split; [reflexivity|].
  exact (proj1 (@patch_document_inserts_pPr Plain.xml _ _ _ Sample.all_off
                  (proj2 (plain_xml_roundtrip Sample.plain_doc)) eq_refl
                  eq_refl eq_refl eq_refl eq_refl eq_refl)).
Defined.

Example patch_document_inserts_pPr_example :
  Fix.patch_body Sample.all_off
    (Sample.node (Fix.tag Fix.W "body")
       [Sample.node (Fix.tag Fix.W "p") [Sample.run "Hello"]])
  = Ok (Sample.node (Fix.tag Fix.W "body")
          [Sample.node (Fix.tag Fix.W "p")
             [Sample.node (Fix.tag Fix.W "pPr") []; Sample.run "Hello"]]).
Proof. vm_compute. reflexivity. Qed.

(** ** C10 *)


(** ** The fixers on the values of the specification *)

Example spacing_clamp_600 :
  Fix._fix_paragraph_spacing (Sample.pPr_spacing [(Fix.tag Fix.W "before", "600")])
  = Ok (Sample.pPr_spacing [(Fix.tag Fix.W "before", "160")]).
Proof. vm_compute. reflexivity. Qed.

Example spacing_clamp_100 :
  Fix._fix_paragraph_spacing (Sample.pPr_spacing [(Fix.tag Fix.W "before", "100")])
  = Ok (Sample.pPr_spacing [(Fix.tag Fix.W "before", "100")]).
Proof. vm_compute. reflexivity. Qed.

Example spacing_created_when_absent :
  Fix._fix_paragraph_spacing (Sample.node (Fix.tag Fix.W "pPr") [])
  = Ok (Sample.pPr_spacing []).
Proof. vm_compute. reflexivity. Qed.

Example line_rule_exact_600 :
  Fix._fix_paragraph_spacing
    (Sample.pPr_spacing [(Fix.tag Fix.W "line", "600"); (Fix.tag Fix.W "lineRule", "exact")])
  = Ok (Sample.pPr_spacing
          [(Fix.tag Fix.W "line", "276"); (Fix.tag Fix.W "lineRule", "auto")]).
Proof. vm_compute. reflexivity. Qed.

Example line_rule_auto_1000 :
  Fix._fix_paragraph_spacing
    (Sample.pPr_spacing [(Fix.tag Fix.W "line", "1000"); (Fix.tag Fix.W "lineRule", "auto")])
  = Ok (Sample.pPr_spacing
          [(Fix.tag Fix.W "line", "480"); (Fix.tag Fix.W "lineRule", "auto")]).
Proof. vm_compute. reflexivity. Qed.

Example line_without_rule_untouched :
  Fix._fix_paragraph_spacing (Sample.pPr_spacing [(Fix.tag Fix.W "line", "--1000")])
  = Ok (Sample.pPr_spacing [(Fix.tag Fix.W "line", "--1000")]).
Proof. vm_compute. reflexivity. Qed.

Example indentation_minus_3200 :
  Fix._fix_indentation
    (Sample.node (Fix.tag Fix.W "pPr")
       [Sample.leaf (Fix.tag Fix.W "ind") [(Fix.tag Fix.W "left", "-3200")]])
  = Ok (Sample.node (Fix.tag Fix.W "pPr")
          [Sample.leaf (Fix.tag Fix.W "ind") [(Fix.tag Fix.W "left", "0")]]).
Proof. vm_compute. reflexivity. Qed.

Example indentation_2000 :
  Fix._fix_indentation
    (Sample.node (Fix.tag Fix.W "pPr")
       [Sample.leaf (Fix.tag Fix.W "ind") [(Fix.tag Fix.W "left", "2000")]])
  = Ok (Sample.node (Fix.tag Fix.W "pPr")
          [Sample.leaf (Fix.tag Fix.W "ind") [(Fix.tag Fix.W "left", "2000")]]).
Proof. vm_compute. reflexivity. Qed.

Example fonts_wingdings_georgia :
  Fix._fix_run_fonts
    (Sample.node (Fix.tag Fix.W "p")
       [Sample.node (Fix.tag Fix.W "r")
          [Sample.node (Fix.tag Fix.W "rPr")
             [Sample.leaf (Fix.tag Fix.W "rFonts")
                [(Fix.tag Fix.W "ascii", "Wingdings"); (Fix.tag Fix.W "hAnsi", "Georgia")]]]])
  = Sample.node (Fix.tag Fix.W "p")
      [Sample.node (Fix.tag Fix.W "r")
         [Sample.node (Fix.tag Fix.W "rPr")
            [Sample.leaf (Fix.tag Fix.W "rFonts")
               [(Fix.tag Fix.W "ascii", "Arial"); (Fix.tag Fix.W "hAnsi", "Georgia")]]]].
Proof. vm_compute. reflexivity. Qed.

Example int_superscript_two : Py.int (String "178" EmptyString) = Raise ValueError.
Proof. reflexivity. Qed.

Example isdigit_superscript_two : Py.isdigit (String "178" EmptyString) = true.
Proof. reflexivity. Qed.

Example replace_takes_occurrences_left_to_right :
  Py.replace "aa" "b" "aaa" = "ba".
Proof. reflexivity. Qed.

(** ** The spacing and indentation fixers on values that [int] reads *)

Lemma get_set_eq (e : element) (k v : string) : get (set e k v) k = Some v.
Proof.
  destruct e as [t a x cs tl]. unfold get, set. cbn [attrib with_attrib].
  induction a as [|[k' v'] a IH]; cbn.
  - rewrite String.eqb_refl. reflexivity.
  - destruct (String.eqb_spec k' k) as [->|Hne]; cbn.
    + rewrite String.eqb_refl. reflexivity.
    + apply String.eqb_neq in Hne. rewrite Hne. exact IH.
Qed.

Lemma get_set_ne (e : element) (k k' v : string) :
  k <> k' -> get (set e k v) k' = get e k'.
Proof.
  intros Hne. destruct e as [t a x cs tl]. unfold get, set. cbn [attrib with_attrib].
  induction a as [|[k0 v0] a IH]; cbn.
  - apply String.eqb_neq in Hne. rewrite Hne. reflexivity.
  - destruct (String.eqb_spec k0 k) as [->|Hne0]; cbn.
    + apply String.eqb_neq in Hne. rewrite Hne. reflexivity.
    + destruct (k0 =? k')%string; [reflexivity | exact IH].
Qed.

Lemma set_frame (e : element) (k v : string) :
  etree.tag (set e k v) = etree.tag e /\ text (set e k v) = text e /\
  children (set e k v) = children e /\ tail (set e k v) = tail e.
Proof. destruct e. repeat split. Qed.

Lemma all_decimal_digits (s : string) :
  Py.all_chars Py.is_decimal s = true -> Py.all_chars Py.is_digit_char s = true.
Proof.
  induction s as [|a s IH]; [reflexivity|]. cbn [Py.all_chars].
  intros H. apply andb_true_iff in H as [Ha Hs].
  rewrite (IH Hs). unfold Py.is_digit_char. rewrite Ha. reflexivity.
Qed.

Lemma decimal_not_dash (a : ascii) : Py.is_decimal a = true -> Ascii.eqb a "-" = false.
Proof.
  intros H. destruct (Ascii.eqb_spec a "-") as [->|]; [discriminate H | reflexivity].
Qed.

Lemma decimal_not_plus (a : ascii) : Py.is_decimal a = true -> Ascii.eqb a "+" = false.
Proof.
  intros H. destruct (Ascii.eqb_spec a "+") as [->|]; [discriminate H | reflexivity].
Qed.

(** An integer literal passes the guard and [int] reads it. *)
Lemma int_literal_well_read (s : string) :
  int_literal s = true ->
  Fix.looks_numeric (Some s) = true /\ exists v, Py.int s = Ok v.
Proof.
  destruct s as [|a s]; [discriminate|]. cbn [int_literal].
  destruct (Ascii.eqb_spec a "-") as [->|Hne].
  - intros H. apply andb_true_iff in H as [Hne Hs].
    destruct s as [|b s]; [discriminate|]. cbn [Py.all_chars] in Hs.
    apply andb_true_iff in Hs as [Hb Hs]. split.
    + unfold Fix.looks_numeric. cbn [Py.truthy Py.lstrip andb].
      change (Ascii.eqb "-" "-") with true. cbn iota.
      cbn [Py.lstrip]. rewrite (decimal_not_dash _ Hb).
      unfold Py.isdigit. cbn [Py.truthy Py.all_chars andb].
      rewrite (all_decimal_digits _ Hs). unfold Py.is_digit_char. rewrite Hb. reflexivity.
    + unfold Py.int. change (Ascii.eqb "-" "-") with true. cbn iota.
      unfold Py.decimal_literal. cbn [Py.truthy Py.all_chars andb].
      rewrite Hb, Hs. cbn. eauto.
  - intros H. cbn [Py.all_chars] in H. apply andb_true_iff in H as [Ha Hs]. split.
    + unfold Fix.looks_numeric. cbn [Py.truthy Py.lstrip andb].
      apply Ascii.eqb_neq in Hne. rewrite Hne.
      unfold Py.isdigit. cbn [Py.truthy Py.all_chars andb].
      rewrite (all_decimal_digits _ Hs). unfold Py.is_digit_char. rewrite Ha. reflexivity.
    + unfold Py.int. rewrite (decimal_not_dash _ Ha), (decimal_not_plus _ Ha).
      unfold Py.decimal_literal. cbn [Py.truthy Py.all_chars andb].
      rewrite Ha, Hs. cbn. eauto.
Qed.

Lemma clamp_well_read (attr : string) (max_val : Z) (spacing : element) :
  well_read (get spacing (Fix.tag Fix.W attr)) ->
  Fix._clamp attr max_val spacing =
  Ok (match numeric_value (get spacing (Fix.tag Fix.W attr)) with
      | Some v => if v >? max_val
                  then set spacing (Fix.tag Fix.W attr) (Py.str max_val)
                  else spacing
      | None => spacing
      end).
Proof.
  intros Hw. unfold Fix._clamp, numeric_value.
  destruct (Fix.looks_numeric (get spacing (Fix.tag Fix.W attr))) eqn:Eg; [|reflexivity].
  destruct (Hw Eg) as [v Ev]. rewrite Ev. cbn.
  destruct (v >? max_val); reflexivity.
Qed.

Lemma clamp_get (attr : string) (max_val : Z) (spacing spacing' : element) :
  Fix._clamp attr max_val spacing = Ok spacing' ->
  well_read (get spacing (Fix.tag Fix.W attr)) ->
  get spacing' (Fix.tag Fix.W attr) = clamped max_val (get spacing (Fix.tag Fix.W attr)) /\
  (forall k, k <> Fix.tag Fix.W attr -> get spacing' k = get spacing k) /\
  etree.tag spacing' = etree.tag spacing /\ text spacing' = text spacing /\
  children spacing' = children spacing /\ tail spacing' = tail spacing.
Proof.
  intros E Hw. rewrite (clamp_well_read _ _ _ Hw) in E. injection E as <-.
  unfold clamped. destruct (numeric_value (get spacing (Fix.tag Fix.W attr))) as [v|].
  - destruct (v >? max_val).
    + split; [apply get_set_eq|]. split; [|apply set_frame].
      intros k Hk. apply get_set_ne. congruence.
    + repeat split.
  - repeat split.
Qed.

Lemma tag_ne (ns a b : string) : a <> b -> Fix.tag ns a <> Fix.tag ns b.
Proof. intros Hne E. apply Hne. apply (tag_inj _ _ _ E). Qed.



Lemma fix_indent_attr_well_read (ind : element) (attr : string) :
  well_read (get ind (Fix.tag Fix.W attr)) ->
  exists ind',
    Fix.fix_indent_attr ind attr = Ok ind' /\
    get ind' (Fix.tag Fix.W attr) = zeroed 2880 (get ind (Fix.tag Fix.W attr)) /\
    (forall k, k <> Fix.tag Fix.W attr -> get ind' k = get ind k) /\
    etree.tag ind' = etree.tag ind /\ text ind' = text ind /\
    children ind' = children ind /\ tail ind' = tail ind.
Proof.
  intros Hw. unfold Fix.fix_indent_attr, zeroed, numeric_value.
  destruct (Fix.looks_numeric (get ind (Fix.tag Fix.W attr))) eqn:Eg.
  - destruct (Hw Eg) as [v Ev]. rewrite Ev. cbn [mbind result_bind Py.bind].
    destruct (Z.abs v >? 2880).
    + eexists. split; [reflexivity|]. split; [apply get_set_eq|].
      split; [|apply set_frame]. intros k Hk. apply get_set_ne. congruence.
    + eexists. split; [reflexivity|]. repeat split.
  - eexists. split; [reflexivity|]. repeat split.
Qed.



(** ** The font fixer on one [w:rFonts] *)

Lemma dict_get_app_fresh {V} (done rest : list (string * V)) (k : string) :
  k ∉ map fst done -> Py.dict_get (done ++ rest) k = Py.dict_get rest k.
Proof.
  induction done as [|[k0 v0] done IH]; cbn; [reflexivity|].
  intros Hn. apply not_elem_of_cons in Hn as [Hne Hn].
  assert (E : (k0 =? k)%string = false) by (apply String.eqb_neq; congruence).
  rewrite E. apply IH. exact Hn.
Qed.

Lemma set_attr_app_fresh (done rest : list (string * string)) (k v : string) :
  k ∉ map fst done -> set_attr (done ++ rest) k v = (done ++ set_attr rest k v)%list.
Proof.
  induction done as [|[k0 v0] done IH]; cbn; [reflexivity|].
  intros Hn. apply not_elem_of_cons in Hn as [Hne Hn].
  assert (E : (k0 =? k)%string = false) by (apply String.eqb_neq; congruence).
  rewrite E, (IH Hn). reflexivity.
Qed.

Lemma fix_rFonts_from (t : string) (x tl : option string) (cs : list element)
      (rest done : list (string * string)) :
  NoDup (map fst (done ++ rest)) ->
  fold_left
    (fun rFonts attr =>
       match get rFonts attr with
       | Some val =>
           match Py.dict_get Fix.UNSAFE val with
           | Some safe => set rFonts attr safe
           | None => rFonts
           end
       | None => rFonts
       end)
    (map fst rest) (Element t (done ++ rest) x cs tl)
  = Element t
      (done ++ map (fun kv => (fst kv, default (snd kv) (Py.dict_get Fix.UNSAFE (snd kv))))
                   rest) x cs tl.
Proof.
  revert done. induction rest as [|[k v] rest IH]; intros done Hnd; [reflexivity|].
  assert (Hk : k ∉ map fst done).
  { rewrite map_app in Hnd. apply list.NoDup_app in Hnd as (_ & Hd & _).
    intros Hin. apply (Hd k Hin). cbn. apply list_elem_of_here. }
  cbn [map fold_left fst snd]. unfold get in *. cbn [attrib].
  rewrite (dict_get_app_fresh _ _ _ Hk). cbn [Py.dict_get].
  rewrite String.eqb_refl.
  assert (Hnd' : NoDup (map fst ((done ++ [(k, default v (Py.dict_get Fix.UNSAFE v))])
                                 ++ rest))).
  { rewrite <- app_assoc. rewrite !map_app in *. exact Hnd. }
  specialize (IH (done ++ [(k, default v (Py.dict_get Fix.UNSAFE v))])%list Hnd').
  rewrite <- !app_assoc in IH. cbn [app] in IH.
  destruct (Py.dict_get Fix.UNSAFE v) as [safe|]; cbn [default] in *.
  - unfold set. cbn [attrib with_attrib].
    rewrite (set_attr_app_fresh _ _ _ _ Hk). cbn [set_attr].
    rewrite String.eqb_refl. exact IH.
  - exact IH.
Qed.

(** The Font Fixer on a [w:rFonts] element: every attribute whose value
    is a key of the table takes the value the table gives, the other
    attributes keep theirs, names and order are as before, and no value
    the table gives is itself a key of the table. *)
Theorem fonts_substituted (rFonts : element) :
  NoDup (map fst (attrib rFonts)) ->
  Fix.fix_rFonts rFonts =
  with_attrib rFonts
    (map (fun kv => (fst kv, default (snd kv) (Py.dict_get Fix.UNSAFE (snd kv))))
         (attrib rFonts)) /\
  Forall (fun entry => Py.dict_get Fix.UNSAFE (snd entry) = None) Fix.UNSAFE.
Proof.
  intros Hnd. split; [|repeat constructor].
  destruct rFonts as [t a x cs tl]. unfold Fix.fix_rFonts. cbn [attrib with_attrib].
  apply (fix_rFonts_from t x tl cs a []). exact Hnd.
Qed.

(** The Font Fixer on [ascii=Wingdings] and [hAnsi=Georgia]. *)
Lemma fonts_substituted_witness :
  NoDup (map fst [(Fix.tag Fix.W "ascii", "Wingdings"); (Fix.tag Fix.W "hAnsi", "Georgia")]) /\
  Fix.fix_rFonts
    (Sample.leaf (Fix.tag Fix.W "rFonts")
       [(Fix.tag Fix.W "ascii", "Wingdings"); (Fix.tag Fix.W "hAnsi", "Georgia")])
  = Sample.leaf (Fix.tag Fix.W "rFonts")
      [(Fix.tag Fix.W "ascii", "Arial"); (Fix.tag Fix.W "hAnsi", "Georgia")].
Proof.
  assert (Hnd : NoDup (map fst [(Fix.tag Fix.W "ascii", "Wingdings");
                                (Fix.tag Fix.W "hAnsi", "Georgia")])).
  { cbn. apply list.NoDup_cons. split.
    - intros Hin. apply list_elem_of_singleton in Hin. discriminate Hin.
    - apply list.NoDup_cons. split; [apply not_elem_of_nil | apply list.NoDup_nil; exact I]. }
  split; [exact Hnd|].
  exact (proj1 (fonts_substituted
                  (Sample.leaf (Fix.tag Fix.W "rFonts")
                     [(Fix.tag Fix.W "ascii", "Wingdings");
                      (Fix.tag Fix.W "hAnsi", "Georgia")]) Hnd)).
Defined.

(** ** Fixers that reach a fixed point in one turn *)

(** The Table Fixer and the insertion of paragraph properties change an
    element once: a second turn finds what the first one left. *)
Theorem table_and_pPr_turns_idempotent (e : element) :
  Fix.fix_tbl (Fix.fix_tbl e) = Fix.fix_tbl e /\
  Fix.ensure_pPr (Fix.ensure_pPr e) = Fix.ensure_pPr e.
Proof.
  split.
  - destruct e as [tg a x cs tl]. rewrite (fix_tbl_cases tg a x cs tl).
    destruct (find_in (Fix.tag Fix.W "tblPr") cs) as [tblPr|] eqn:E.
    + destruct (find_in (Fix.tag Fix.W "tblCellMar") (children tblPr)) as [m|] eqn:Em.
      * rewrite fix_tbl_cases, E, Em. reflexivity.
      * rewrite fix_tbl_cases.
        rewrite (alter_first_find _ _ _ tblPr) by
          ((intros e _; apply find_in_elem in E as [_ E]; destruct tblPr; exact E)
           || exact E).
        destruct tblPr as [tg' a' x' cs' tl']. cbn [children with_children] in *.
        rewrite (find_in_app_new _ _ _ Em) by reflexivity. reflexivity.
    + rewrite fix_tbl_cases. cbn. reflexivity.
  - destruct (ensure_pPr_found e) as [q Hq]. unfold Fix.ensure_pPr at 1.
    rewrite Hq. reflexivity.
Qed.
